(** * PDF page embedder: a shallow embedding of [.github/scripts/embed.py]

    The script opens a PDF, walks its pages in order, embeds the trimmed text
    of every non-blank page with a sentence-embedding model and appends one
    row per such page to the [Documents] table of an SQLite file, committing
    every [commit_interval] pages and once more at the end.

    The embedding follows the script function by function: [init_db],
    [process_pdf] and [main].  Python strings are lists of Unicode code
    points, Python integers are [Z], the SQLite file system is a finite map
    from database paths to the rows of their [Documents] table, and the
    script's effects (console output, model calls, SQL statements, commits)
    are recorded in an event log carried by a small state-and-exception
    monad. *)

From Stdlib Require Import ZArith Lia DecimalString.
From stdpp Require Import base list sorting gmap strings.

Local Open Scope Z_scope.

(** ** Python strings *)

(** A Python [str]: a sequence of Unicode code points. *)
Abbreviation str := (list N).

(** A literal of the script, character by character. *)
Fixpoint lit (s : string) : str :=
  match s with
  | EmptyString => []
  | String a s' => Ascii.N_of_ascii a :: lit s'
  end.

(** [str(n)] for a Python integer, as used by the f-strings. *)
Definition str_of_int (n : Z) : str :=
  lit (NilZero.string_of_int (Z.to_int n)).

(** [str.isspace] on one code point: the characters [str.strip()] removes
    (CPython's ASCII whitespace table and the Unicode White_Space and
    bidirectional-separator characters above it). *)
Definition isspace (c : N) : bool :=
  ((9 <=? c) && (c <=? 13) || (28 <=? c) && (c <=? 32)
   || (c =? 133) || (c =? 160) || (c =? 5760)
   || (8192 <=? c) && (c <=? 8202)
   || (c =? 8232) || (c =? 8233) || (c =? 8239) || (c =? 8287)
   || (c =? 12288))%N.

Fixpoint lstrip (s : str) : str :=
  match s with
  | [] => []
  | c :: s' => if isspace c then lstrip s' else s
  end.

Definition rstrip (s : str) : str := reverse (lstrip (reverse s)).

(** [s.strip()] *)
Definition strip (s : str) : str := rstrip (lstrip s).

(** [not text] for a string: true exactly on the empty string. *)
Definition is_empty (s : str) : bool :=
  match s with [] => true | _ => false end.

(** ** [pathlib]: the final component of a POSIX path *)

Definition sep : N := 47.
Definition dot : str := [46%N].

(** [s.split('/')] *)
Fixpoint split_sep (s : str) : list str :=
  match s with
  | [] => [[]]
  | c :: s' =>
      if (c =? sep)%N then [] :: split_sep s'
      else match split_sep s' with
           | [] => [[c]]
           | w :: ws => (c :: w) :: ws
           end
  end.

(** The components [pathlib] keeps: empty ones and [.] are dropped. *)
Definition keeps_part (x : str) : bool :=
  negb (is_empty x) && negb (bool_decide (x = dot)).

Definition path_parts (p : str) : list str :=
  List.filter keeps_part (split_sep p).

(** [Path(p).name]: the last component, or the empty string if there is
    none. *)
Definition path_name (p : str) : str := List.last (path_parts p) [].

(** ** The store *)

(** One row of [Documents (id INTEGER PRIMARY KEY, filename TEXT,
    page INTEGER, text TEXT, embedding TEXT)]. *)
Record Row := mkRow {
  id : Z;
  filename : str;
  page : Z;
  text : str;
  embedding : str
}.

(** The largest rowid SQLite hands out. *)
Definition MAX_ROWID : Z := 9223372036854775807.

(** What the run does to the outside world, in program order. *)
Inductive event :=
  | Print (line : str)          (* print(line) *)
  | Connect (db_path : str)     (* sqlite3.connect(db_path) *)
  | OpenDoc (pdf_path : str)    (* fitz.open(pdf_path) *)
  | Encode (txt : str)          (* model.encode(txt) *)
  | Insert (r : Row)            (* INSERT INTO Documents ... *)
  | Commit                      (* conn.commit() *)
  | Close.                      (* conn.close() *)

(** The world: for every database path the committed rows of its
    [Documents] table in insertion order (no entry: no such table), and the
    log of events so far. *)
Record World := mkWorld {
  disk : gmap str (list Row);
  log : list event
}.

(** A [sqlite3.Connection]: the file it is bound to and the rows inserted
    in the open transaction, not yet committed. *)
Record Connection := mkConn {
  conn_path : str;
  pending : list Row
}.

(** ** Exceptions and the monad of the script *)

Inductive exn :=
  | SystemExit (code : Z)       (* sys.exit(code) *)
  | ZeroDivisionError           (* x % 0 *)
  | FileDataError               (* fitz.open on an unreadable document *)
  | InferenceError              (* model.encode failed *)
  | OperationalError.           (* sqlite3: no such table *)

Inductive result (A : Type) :=
  | Ok (a : A)
  | Raise (e : exn).
Arguments Ok {A} a.
Arguments Raise {A} e.

Definition M (A : Type) : Type := World -> result A * World.

Definition ret {A} (a : A) : M A := fun w => (Ok a, w).

Definition bind {A B} (m : M A) (k : A -> M B) : M B :=
  fun w =>
    match m w with
    | (Ok a, w') => k a w'
    | (Raise e, w') => (Raise e, w')
    end.

Definition raise {A} (e : exn) : M A := fun w => (Raise e, w).

Definition emit (e : event) : M unit :=
  fun w => (Ok tt, mkWorld (disk w) (log w ++ [e])).

Notation "x <- m ;; k" := (bind m (fun x => k))
  (at level 100, m at next level, right associativity).
Notation "m ;; k" := (bind m (fun _ => k))
  (at level 100, right associativity).

Definition print (line : str) : M unit := emit (Print line).

(** The process exit status of a run that ended with [r]: 0 on a normal
    return, the argument of [sys.exit], and 1 for an uncaught exception. *)
Definition exit_code {A} (r : result A) : Z :=
  match r with
  | Ok _ => 0
  | Raise (SystemExit c) => c
  | Raise _ => 1
  end.

(** [a % b] on Python integers; the result takes the sign of [b], as
    [Z.modulo] does. *)
Definition py_mod (a b : Z) : M Z :=
  if b =? 0 then raise ZeroDivisionError else ret (a mod b).

(** ** Reading the log *)

(** The rows of the [INSERT]s of a log, in order. *)
Fixpoint inserted (evs : list event) : list Row :=
  match evs with
  | [] => []
  | Insert r :: evs' => r :: inserted evs'
  | _ :: evs' => inserted evs'
  end.

(** The texts handed to the model, in order. *)
Fixpoint encoded (evs : list event) : list str :=
  match evs with
  | [] => []
  | Encode t :: evs' => t :: encoded evs'
  | _ :: evs' => encoded evs'
  end.

Definition is_commit (e : event) : bool :=
  match e with Commit => true | _ => false end.

Definition is_close (e : event) : bool :=
  match e with Close => true | _ => false end.

Definition is_connect (e : event) : bool :=
  match e with Connect _ => true | _ => false end.

Definition count_commits (evs : list event) : nat :=
  length (List.filter is_commit evs).

(** Scanning a log from a point where [u] inserted rows are uncommitted and
    the largest such number seen so far is [pk]: the pair of the two numbers
    at the end of the log. *)
Fixpoint scan (u pk : nat) (evs : list event) : nat * nat :=
  match evs with
  | [] => (u, pk)
  | Insert _ :: evs' => scan (S u) (Nat.max pk (S u)) evs'
  | Commit :: evs' => scan 0%nat pk evs'
  | _ :: evs' => scan u pk evs'
  end.

(** The largest number of inserted rows that were uncommitted at once at
    any point of the log. *)
Definition peak_uncommitted (evs : list event) : nat :=
  snd (scan 0%nat 0%nat evs).

(** ** Console messages *)

Definition msg_usage : str :=
  lit "Usage: python3 pdf_embedder.py <pdf_file_path>".
Definition msg_missing (pdf_file : str) : str :=
  lit "PDF file '" ++ pdf_file ++ lit "' does not exist.".
Definition msg_loading : str :=
  lit "Loading embedding model (all-MiniLM-L6-v2)...".
Definition msg_loaded : str := lit "Embedding model loaded.".
Definition msg_start (file_name : str) (num_pages : Z) : str :=
  lit "Processing PDF: " ++ file_name ++ lit " with "
  ++ str_of_int num_pages ++ lit " pages.".
Definition msg_skipping (page_number : Z) : str :=
  lit "Page " ++ str_of_int page_number ++ lit " has no text. Skipping.".
Definition msg_processing (page_number num_pages : Z) : str :=
  lit "Processing page " ++ str_of_int page_number ++ lit "/"
  ++ str_of_int num_pages ++ lit "...".
Definition msg_committed (page_number : Z) : str :=
  lit "Committed records up to page " ++ str_of_int page_number ++ lit ".".
Definition msg_finished (file_name : str) : str :=
  lit "Finished processing PDF: " ++ file_name ++ lit ".".
Definition msg_saved (db_path : str) : str :=
  lit "Embeddings saved to " ++ db_path ++ lit ".".

(** ** SQLite, as the script uses it *)

(** The largest [id] of a table, if it has a row. *)
Definition max_id (rows : list Row) : option Z :=
  foldr (fun r acc =>
           Some (match acc with None => id r | Some m => Z.max (id r) m end))
        None rows.

(** *** The environment of a run

    The collaborators the script consumes and does not define: the file
    system, the PDF library, the embedding model, the JSON encoder and the
    random source of the SQLite engine. *)
Class Env := {
  (** [Path(p).exists()] on the file system of the run. *)
  path_exists : str -> bool;
  (** [fitz.open(p)]: the raw text of each page of the document, in page
      order; [None] when the file cannot be opened as a document. *)
  fitz_open : str -> option (list str);
  (** What [model.encode] returns, and the call itself ([None]: inference
      failed). *)
  tensor : Type;
  encode : str -> option tensor;
  (** [json.dumps(v.tolist() if hasattr(v, 'tolist') else v)]: the JSON text
      of an embedding. *)
  json_dumps : tensor -> str;
  (** The rowid SQLite draws at random once the largest rowid in use is
      [MAX_ROWID]; it is given the ids in use. *)
  random_rowid : list Z -> Z
}.

Section Script.

Context `{Env}.

(** The id of a row inserted without one into a table holding [rows]: 1 in
    an empty table, else one more than the largest id in use, unless that
    one is the largest possible. *)
Definition next_rowid (rows : list Row) : Z :=
  match max_id rows with
  | None => 1
  | Some m => if m <? MAX_ROWID then m + 1 else random_rowid (id <$> rows)
  end.

(** [sqlite3.connect(db_path)] *)
Definition connect (db_path : str) : M Connection :=
  emit (Connect db_path) ;;
  ret (mkConn db_path []).

(** [CREATE TABLE IF NOT EXISTS Documents (...)]: nothing happens to a
    table that is there; a missing one is created empty.  A DDL statement
    outside a transaction is durable at once. *)
Definition create_table_if_not_exists (conn : Connection) : M unit :=
  fun w =>
    match disk w !! conn_path conn with
    | Some _ => (Ok tt, w)
    | None => (Ok tt, mkWorld (<[conn_path conn := []]> (disk w)) (log w))
    end.

(** [INSERT INTO Documents (filename, page, text, embedding) VALUES
    (?, ?, ?, ?)]: the row joins the open transaction; its id is chosen
    against the rows the connection sees, committed and pending. *)
Definition insert_document (conn : Connection)
    (file_name : str) (page_number : Z) (txt embedding_json : str)
    : M Connection :=
  fun w =>
    match disk w !! conn_path conn with
    | None => (Raise OperationalError, w)
    | Some rows =>
        let r := mkRow (next_rowid (rows ++ pending conn))
                       file_name page_number txt embedding_json in
        (Ok (mkConn (conn_path conn) (pending conn ++ [r])),
         mkWorld (disk w) (log w ++ [Insert r]))
    end.

(** The disk once the pending rows of [conn] are durable. *)
Definition flushed (conn : Connection) (d : gmap str (list Row))
    : gmap str (list Row) :=
  match d !! conn_path conn with
  | Some rows => <[conn_path conn := rows ++ pending conn]> d
  | None => d
  end.

(** [conn.commit()]: the pending rows become durable. *)
Definition commit (conn : Connection) : M Connection :=
  fun w =>
    (Ok (mkConn (conn_path conn) []),
     mkWorld (flushed conn (disk w)) (log w ++ [Commit])).

(** [conn.close()]: what was not committed is rolled back. *)
Definition close (conn : Connection) : M unit := emit Close.

(** *** [init_db] *)

Definition init_db (db_path : str) : M Connection :=
  conn <- connect db_path ;;
  create_table_if_not_exists conn ;;
  conn <- commit conn ;;
  ret conn.

(** *** [process_pdf] *)

(** One turn of [for page_number, page in enumerate(doc, start=1)]. *)
Definition page_body (file_name : str) (num_pages commit_interval : Z)
    (page_number : Z) (raw : str) (conn : Connection) : M Connection :=
  let txt := strip raw in
  if is_empty txt then
    print (msg_skipping page_number) ;;
    ret conn
  else
    print (msg_processing page_number num_pages) ;;
    emit (Encode txt) ;;
    match encode txt with
    | None => raise InferenceError
    | Some embedding_vector =>
        let embedding_json := json_dumps embedding_vector in
        conn <- insert_document conn file_name page_number txt
                  embedding_json ;;
        r <- py_mod page_number commit_interval ;;
        if r =? 0 then
          conn <- commit conn ;;
          print (msg_committed page_number) ;;
          ret conn
        else ret conn
    end.

(** The loop over the pages that remain, the next one being numbered
    [page_number]. *)
Fixpoint for_pages (file_name : str) (num_pages commit_interval : Z)
    (page_number : Z) (doc : list str) (conn : Connection)
    : M Connection :=
  match doc with
  | [] => ret conn
  | raw :: doc' =>
      conn <- page_body file_name num_pages commit_interval page_number
                raw conn ;;
      for_pages file_name num_pages commit_interval (page_number + 1)
        doc' conn
  end.

Definition process_pdf (pdf_path : str) (conn : Connection)
    (commit_interval : Z) : M Connection :=
  emit (OpenDoc pdf_path) ;;
  match fitz_open pdf_path with
  | None => raise FileDataError
  | Some doc =>
      let file_name := path_name pdf_path in
      let num_pages := Z.of_nat (length doc) in
      print (msg_start file_name num_pages) ;;
      conn <- for_pages file_name num_pages commit_interval 1 doc conn ;;
      conn <- commit conn ;;
      print (msg_finished file_name) ;;
      ret conn
  end.

(** *** [main] *)

Definition db_file : str := lit "pdf_embeddings.db".

(** [main()] with [sys.argv = argv]; [process_pdf] is called with its
    default [commit_interval = 50]. *)
Definition main (argv : list str) : M unit :=
  match argv with
  | [] | [_] =>
      print msg_usage ;;
      raise (SystemExit 1)
  | _ :: pdf_file :: _ =>
      if negb (path_exists pdf_file) then
        print (msg_missing pdf_file) ;;
        raise (SystemExit 1)
      else
        print msg_loading ;;
        print msg_loaded ;;
        conn <- init_db db_file ;;
        conn <- process_pdf pdf_file conn 50 ;;
        close conn ;;
        print (msg_saved db_file)
  end.

End Script.

Arguments flushed : simpl never.

(** ** Outcomes of a run *)

(** The events a run from [w] added to the log to reach [w']. *)
Definition new_events (w w' : World) : list event :=
  drop (length (log w)) (log w').

(** The six ways one turn of the page loop can end, read off [page_body]:
    the page is blank; the model fails; the table is missing; the interval
    is zero; the row is inserted and committed; the row is inserted only.
    [body_outcome ... conn d r d' evs]: started on disk [d], the turn ends
    with [r] on disk [d'], having logged [evs]. *)
Inductive body_outcome `{Env} (file_name : str) (num_pages commit_interval : Z)
    (page_number : Z) (raw : str) (conn : Connection)
    (d : gmap str (list Row))
    : result Connection -> gmap str (list Row) -> list event -> Prop :=
  | BO_skip :
      strip raw = [] ->
      body_outcome file_name num_pages commit_interval page_number raw conn d
        (Ok conn) d [Print (msg_skipping page_number)]
  | BO_inference v :
      strip raw <> [] -> encode (strip raw) = None -> v = strip raw ->
      body_outcome file_name num_pages commit_interval page_number raw conn d
        (Raise InferenceError) d
        [Print (msg_processing page_number num_pages); Encode v]
  | BO_no_table v t :
      strip raw <> [] -> encode (strip raw) = Some t -> v = strip raw ->
      d !! conn_path conn = None ->
      body_outcome file_name num_pages commit_interval page_number raw conn d
        (Raise OperationalError) d
        [Print (msg_processing page_number num_pages); Encode v]
  | BO_zero v t rows r :
      strip raw <> [] -> encode (strip raw) = Some t -> v = strip raw ->
      d !! conn_path conn = Some rows ->
      r = mkRow (next_rowid (rows ++ pending conn)) file_name page_number v
            (json_dumps t) ->
      commit_interval = 0 ->
      body_outcome file_name num_pages commit_interval page_number raw conn d
        (Raise ZeroDivisionError) d
        [Print (msg_processing page_number num_pages); Encode v; Insert r]
  | BO_commit v t rows r :
      strip raw <> [] -> encode (strip raw) = Some t -> v = strip raw ->
      d !! conn_path conn = Some rows ->
      r = mkRow (next_rowid (rows ++ pending conn)) file_name page_number v
            (json_dumps t) ->
      commit_interval <> 0 -> page_number mod commit_interval = 0 ->
      body_outcome file_name num_pages commit_interval page_number raw conn d
        (Ok (mkConn (conn_path conn) []))
        (<[conn_path conn := rows ++ (pending conn ++ [r])]> d)
        [Print (msg_processing page_number num_pages); Encode v; Insert r;
         Commit; Print (msg_committed page_number)]
  | BO_insert v t rows r :
      strip raw <> [] -> encode (strip raw) = Some t -> v = strip raw ->
      d !! conn_path conn = Some rows ->
      r = mkRow (next_rowid (rows ++ pending conn)) file_name page_number v
            (json_dumps t) ->
      commit_interval <> 0 -> page_number mod commit_interval <> 0 ->
      body_outcome file_name num_pages commit_interval page_number raw conn d
        (Ok (mkConn (conn_path conn) (pending conn ++ [r]))) d
        [Print (msg_processing page_number num_pages); Encode v; Insert r].

(** What a run of the page loop establishes: started on disk [d] with the
    log [l0 ++ evs], it ends with some result on some disk, having extended
    the log to [l0 ++ evs'], where [Q] holds on return and [E] on a raise. *)
Definition loop_post `{Env} (file_name : str) (num_pages commit_interval : Z)
    (page_number : Z) (doc : list str) (conn : Connection)
    (d : gmap str (list Row)) (l0 evs : list event)
    (Q : Connection -> gmap str (list Row) -> list event -> Prop)
    (E : exn -> gmap str (list Row) -> list event -> Prop) : Prop :=
  exists r d' evs',
    for_pages file_name num_pages commit_interval page_number doc conn
      (mkWorld d (l0 ++ evs))
    = (r, mkWorld d' (l0 ++ evs')) /\
    match r with
    | Ok conn' => Q conn' d' evs'
    | Raise e => E e d' evs'
    end.

(** The page number and trimmed text of the pages the loop does not skip,
    the first page of [doc] being numbered [n]. *)
Fixpoint kept (n : Z) (doc : list str) : list (Z * str) :=
  match doc with
  | [] => []
  | raw :: doc' =>
      if is_empty (strip raw) then kept (n + 1) doc'
      else (n, strip raw) :: kept (n + 1) doc'
  end.

(** What a row says about its page. *)
Definition page_text (r : Row) : Z * str := (page r, text r).

(** An event the page loop may log: it neither opens nor closes a
    connection. *)
Definition loop_event (e : event) : Prop :=
  is_close e = false /\ is_connect e = false.

(** The ids of [rs] are the ones SQLite assigns when [rs] are inserted one
    after the other into a table holding [view]. *)
Fixpoint ids_chain `{Env} (view : list Row) (rs : list Row) : Prop :=
  match rs with
  | [] => True
  | r :: rs' => id r = next_rowid view /\ ids_chain (view ++ [r]) rs'
  end.

(** The disk once the [Documents] table of [db_path] is ensured. *)
Definition with_table (db_path : str) (d : gmap str (list Row))
    : gmap str (list Row) :=
  match d !! db_path with
  | Some _ => d
  | None => <[db_path := []]> d
  end.

(** A table holding [view] has room for [n] more rows before the largest
    rowid is reached. *)
Definition rowid_room (view : list Row) (n : Z) : Prop :=
  match max_id view with Some m => m | None => 0 end + n <= MAX_ROWID.

(** ** A small environment to run the script in

    One readable document, [docs/report.pdf], with the pages given; one
    file that exists and is no document, [docs/broken.pdf]; a model that
    embeds a text as the list of its code points. *)

Definition report_pdf : str := lit "docs/report.pdf".
Definition broken_pdf : str := lit "docs/broken.pdf".

Fixpoint json_ints (v : list Z) : str :=
  match v with
  | [] => []
  | [x] => str_of_int x
  | x :: v' => str_of_int x ++ lit ", " ++ json_ints v'
  end.

Definition demo_env (pages : list str) : Env := {|
  path_exists p := bool_decide (p = report_pdf) || bool_decide (p = broken_pdf);
  fitz_open p := if bool_decide (p = report_pdf) then Some pages else None;
  tensor := list Z;
  encode txt := Some (Z.of_N <$> txt);
  json_dumps v := lit "[" ++ json_ints v ++ lit "]";
  random_rowid _ := 1
|}.

(** A store whose table already holds one row, a fresh connection to it,
    and a world with nothing logged yet. *)
Definition old_row : Row :=
  mkRow 7 (lit "old.pdf") 1 (lit "earlier") (lit "[1]").
Definition demo_conn : Connection := mkConn db_file [].
Definition demo_world : World := mkWorld {[ db_file := [old_row] ]} [].

(** Documents: three pages of text; text, blank, text; blank pages only;
    blank pages on the odd numbers; blank pages on the even numbers. *)
Definition doc_full : list str := [lit "alpha"; lit " beta "; lit "gamma"].
Definition doc_gap : list str := [lit "alpha"; lit "  "; lit "gamma"].
Definition doc_blank : list str := [lit ""; lit " "].
Definition doc_odd_blank : list str :=
  [lit " "; lit "beta"; lit "gamma"; lit "delta"].
Definition doc_even_blank : list str :=
  [lit "alpha"; lit ""; lit "gamma"; lit " "; lit "epsilon"].

(** ** Further readings of rows, texts and exceptions *)

(** A row without its id: what the script itself puts into it. *)
Definition row_content (r : Row) : str * Z * str * str :=
  (filename r, page r, text r, embedding r).

(** A text of whitespace only. *)
Definition all_space (s : str) : Prop := Forall (fun c => isspace c = true) s.

(** A text that is empty or begins and ends with a character that is no
    whitespace. *)
Definition trimmed (s : str) : Prop :=
  match s with
  | [] => True
  | c :: _ => isspace c = false /\ isspace (List.last s c) = false
  end.

(** The exceptions a turn of the page loop can raise. *)
Definition loop_exn (e : exn) : Prop :=
  e = InferenceError \/ e = OperationalError \/ e = ZeroDivisionError.

(** The largest id in use, 0 in an empty table. *)
Definition top_id (view : list Row) : Z :=
  match max_id view with Some m => m | None => 0 end.

(** A machine without a store. *)
Definition fresh_world : World := mkWorld ∅ [].

(** The model's vector for a text in the small environment. *)
Definition code_points (txt : str) : list Z := Z.of_N <$> txt.

(** The small environment over the three pages of text, with a model that
    fails on the text of the second page. *)
Definition failing_env : Env := {|
  path_exists := path_exists (Env := demo_env doc_full);
  fitz_open := fitz_open (Env := demo_env doc_full);
  tensor := list Z;
  encode txt := if bool_decide (txt = lit "beta") then None
                else Some (code_points txt);
  json_dumps := json_dumps (Env := demo_env doc_full);
  random_rowid := random_rowid (Env := demo_env doc_full)
|}.



(** The skip notices of [n] pages starting at page [first]. *)
Definition skip_notices (first : Z) (n : nat) : list event :=
  (fun p => Print (msg_skipping p)) <$> seqZ first (Z.of_nat n).

(** A [Forall] over a list that grew by a few explicit elements. *)
Ltac grown :=
  apply Forall_app; split; [assumption | repeat constructor].

(** [l] is a prefix of itself followed by anything, also when both carry a
    first element more. *)
Ltac a_prefix :=
  first [ apply prefix_app_r; reflexivity
        | apply prefix_app, prefix_cons, prefix_nil ].

(** * Properties *)

Section Properties.

Context `{Env}.

(** ** Reading a log that grows *)

Lemma inserted_app a b : inserted (a ++ b) = inserted a ++ inserted b.
Proof.
  induction a as [|e a IH]; [reflexivity|].
  destruct e; simpl; rewrite IH; reflexivity.
Qed.

Lemma encoded_app a b : encoded (a ++ b) = encoded a ++ encoded b.
Proof.
  induction a as [|e a IH]; [reflexivity|].
  destruct e; simpl; rewrite IH; reflexivity.
Qed.

Lemma count_commits_app a b :
  count_commits (a ++ b) = (count_commits a + count_commits b)%nat.
Proof.
  unfold count_commits. rewrite List.filter_app, length_app. reflexivity.
Qed.

Lemma scan_app u pk a b :
  scan u pk (a ++ b) = scan (scan u pk a).1 (scan u pk a).2 b.
Proof.
  revert u pk. induction a as [|e a IH]; intros u pk; [reflexivity|].
  destruct e; simpl; apply IH.
Qed.

(** ** The pages that are kept *)

Lemma kept_app n a b :
  kept n (a ++ b) = kept n a ++ kept (n + Z.of_nat (length a)) b.
Proof.
  revert n. induction a as [|raw a IH]; intros n; simpl.
  - f_equal. lia.
  - rewrite IH.
    replace (n + 1 + Z.of_nat (length a)) with (n + Z.pos (Pos.of_succ_nat (length a)))
      by lia.
    destruct (is_empty (strip raw)); reflexivity.
Qed.

Lemma kept_lookup n doc p t :
  (p, t) ∈ kept n doc ->
  exists i raw,
    doc !! i = Some raw /\ p = n + Z.of_nat i /\ t = strip raw /\ t <> [].
Proof.
  revert n. induction doc as [|raw doc IH]; intros n Hin; simpl in Hin.
  - inversion Hin.
  - assert (Htail : (p, t) ∈ kept (n + 1) doc ->
                    exists i raw0, (raw :: doc) !! i = Some raw0 /\
                      p = n + Z.of_nat i /\ t = strip raw0 /\ t <> []).
    { intros Hin'. destruct (IH _ Hin') as (i & raw0 & Hl & Hp & Ht & Hne).
      exists (S i), raw0. repeat split; auto. lia. }
    destruct (strip raw) as [|c s0] eqn:Hs; simpl in Hin; [auto|].
    apply elem_of_cons in Hin as [Heq|Hin]; [|auto].
    injection Heq as -> ->. exists 0%nat, raw. rewrite Hs.
    repeat split; auto. lia.
Qed.



(** With no blank page, the kept pages are numbered consecutively. *)
Lemma kept_all_nonblank n doc :
  Forall (fun raw => strip raw <> []) doc ->
  (kept n doc).*1 = seqZ n (Z.of_nat (length doc)).
Proof.
  intros Hall. revert n.
  induction Hall as [|raw doc Hraw _ IH]; intros n; simpl.
  - reflexivity.
  - destruct (strip raw) eqn:Hs; [contradiction|]. simpl.
    rewrite IH, (seqZ_cons n) by lia.
    do 2 f_equal; lia.
Qed.

(** ** One turn of the loop *)

Lemma page_body_outcome fn np k n raw conn w :
  exists r d' evs,
    page_body fn np k n raw conn w = (r, mkWorld d' (log w ++ evs)) /\
    body_outcome fn np k n raw conn (disk w) r d' evs.
Proof.
  unfold page_body.
  destruct (strip raw) as [|c s] eqn:Hs; simpl.
  { do 3 eexists. split; [reflexivity|]. apply BO_skip; assumption. }
  cbv [bind print emit insert_document py_mod commit flushed ret raise].
  simpl.
  destruct (encode (c :: s)) as [t|] eqn:He; simpl.
  2:{ rewrite <- ?app_assoc; simpl. do 3 eexists. split; [reflexivity|].
      eapply BO_inference; rewrite ?Hs; first [done | eauto]. }
  destruct (disk w !! conn_path conn) as [rows|] eqn:Hd; simpl.
  2:{ rewrite <- ?app_assoc; simpl. do 3 eexists. split; [reflexivity|].
      eapply BO_no_table; rewrite ?Hs; first [done | eauto]. }
  destruct (Z.eqb_spec k 0) as [Hk|Hk]; simpl.
  { rewrite <- ?app_assoc; simpl. do 3 eexists. split; [reflexivity|].
    eapply BO_zero; rewrite ?Hs; first [done | eauto]. }
  destruct (Z.eqb_spec (n mod k) 0) as [Hm|Hm]; simpl.
  - rewrite Hd. rewrite <- ?app_assoc. simpl.
    do 3 eexists. split; [reflexivity|].
    eapply BO_commit; rewrite ?Hs; first [done | eauto].
  - rewrite <- ?app_assoc. simpl.
    do 3 eexists. split; [reflexivity|].
    eapply BO_insert; rewrite ?Hs; first [done | eauto].
Qed.

(** ** The loop: an invariant rule

    [I done conn d evs] is to hold when the pages [done] have been
    processed, the connection is [conn], the disk is [d] and the loop has
    logged [evs]; [E] is to hold when a turn raises. *)
Lemma for_pages_rule
    (I : list str -> Connection -> gmap str (list Row) -> list event -> Prop)
    (E : exn -> gmap str (list Row) -> list event -> Prop)
    fn np k s (all : list str) :
  (forall done raw rest conn d evs r d' bevs,
      all = done ++ raw :: rest ->
      I done conn d evs ->
      body_outcome fn np k (s + Z.of_nat (length done)) raw conn d r d' bevs ->
      match r with
      | Ok conn' => I (done ++ [raw]) conn' d' (evs ++ bevs)
      | Raise e => E e d' (evs ++ bevs)
      end) ->
  forall rest done conn l0 d evs,
    all = done ++ rest ->
    I done conn d evs ->
    loop_post fn np k (s + Z.of_nat (length done)) rest conn d l0 evs
      (I all) E.
Proof.
  intros Hbody rest.
  induction rest as [|raw rest IH]; intros done conn l0 d evs Hall HI.
  - exists (Ok conn), d, evs. split; [reflexivity|].
    rewrite app_nil_r in Hall. subst all. exact HI.
  - unfold loop_post. simpl. unfold bind at 1.
    destruct (page_body_outcome fn np k (s + Z.of_nat (length done)) raw conn
                (mkWorld d (l0 ++ evs))) as (r & d' & bevs & Hrun & Hout).
    cbn [log disk] in Hrun, Hout. rewrite Hrun. clear Hrun.
    specialize (Hbody done raw rest conn d evs r d' bevs Hall HI Hout).
    destruct r as [conn'|e].
    + rewrite <- app_assoc.
      replace (s + Z.of_nat (length done) + 1)
        with (s + Z.of_nat (length (done ++ [raw])))
        by (rewrite length_app; simpl; lia).
      apply IH; [|exact Hbody].
      rewrite <- app_assoc. exact Hall.
    + exists (Raise e), d', (evs ++ bevs). rewrite <- app_assoc.
      split; [reflexivity| exact Hbody].
Qed.

Lemma kept_snoc_blank n done raw :
  strip raw = [] -> kept n (done ++ [raw]) = kept n done.
Proof.
  intros Hs. rewrite kept_app. simpl. rewrite Hs. simpl.
  apply app_nil_r.
Qed.

Lemma kept_snoc_text n done raw :
  strip raw <> [] ->
  kept n (done ++ [raw])
  = kept n done ++ [(n + Z.of_nat (length done), strip raw)].
Proof.
  intros Hs. rewrite kept_app. simpl.
  destruct (strip raw); [contradiction|reflexivity].
Qed.

Lemma kept_mid_text n done raw rest :
  strip raw <> [] ->
  kept n (done ++ raw :: rest)
  = kept n done ++ (n + Z.of_nat (length done), strip raw)
      :: kept (n + Z.of_nat (length done) + 1) rest.
Proof.
  intros Hs. rewrite kept_app. simpl.
  destruct (strip raw); [contradiction|reflexivity].
Qed.

(** ** What the loop logs

    On return the inserted rows are exactly the kept pages, each embedded
    once; when a turn raises they are a prefix of them. *)
Lemma loop_rows fn np k s all conn d l0 :
  loop_post fn np k s all conn d l0 []
    (fun _ _ evs =>
       page_text <$> inserted evs = kept s all /\
       encoded evs = (kept s all).*2 /\
       Forall (fun r => filename r = fn) (inserted evs) /\
       Forall loop_event evs)
    (fun _ _ evs =>
       page_text <$> inserted evs `prefix_of` kept s all /\
       encoded evs `prefix_of` (kept s all).*2 /\
       Forall (fun r => filename r = fn) (inserted evs) /\
       Forall loop_event evs).
Proof.
  replace s with (s + Z.of_nat (length (@nil str))) at 1 by (simpl; lia).
  apply (for_pages_rule
           (fun done _ _ evs =>
              page_text <$> inserted evs = kept s done /\
              encoded evs = (kept s done).*2 /\
              Forall (fun r => filename r = fn) (inserted evs) /\
              Forall loop_event evs)).
  - intros done raw rest c0 d0 evs r d' bevs Hall (Hi & He & Hf & Hl) Hout.
    inversion Hout; subst r d' bevs;
      rewrite ?inserted_app, ?encoded_app, ?fmap_app; simpl;
      rewrite ?app_nil_r.
    + (* blank page *)
      rewrite kept_snoc_blank by assumption.
      repeat split; auto; grown.
    + (* inference failed *)
      rewrite Hall, kept_mid_text, Hi, He, fmap_app by assumption.
      subst v. simpl. repeat split; auto; first [grown | a_prefix].
    + (* no table *)
      rewrite Hall, kept_mid_text, Hi, He, fmap_app by assumption.
      subst v. simpl. repeat split; auto; first [grown | a_prefix].
    + (* zero interval *)
      rewrite Hall, kept_mid_text, Hi, He, fmap_app by assumption.
      subst v r0. simpl. repeat split; auto; first [grown | a_prefix].
    + (* inserted and committed *)
      rewrite kept_snoc_text, Hi, He, fmap_app by assumption.
      subst v r0. simpl. repeat split; auto; grown.
    + (* inserted *)
      rewrite kept_snoc_text, Hi, He, fmap_app by assumption.
      subst v r0. simpl. repeat split; auto; grown.
  - reflexivity.
  - simpl. repeat split; constructor.
Qed.

Lemma ids_chain_snoc view rs r :
  ids_chain view (rs ++ [r])
  <-> ids_chain view rs /\ id r = next_rowid (view ++ rs).
Proof.
  revert view. induction rs as [|r0 rs IH]; intros view; simpl.
  - rewrite app_nil_r. tauto.
  - rewrite IH, <- app_assoc. simpl. tauto.
Qed.

(** ** What the loop does to the store

    With the table in place, a run that returns has added its inserted
    rows, in order, to what the connection sees of its own table, and has
    touched no other table; a run can only raise on a zero interval or a
    failing inference. *)
Lemma loop_view fn np k s all conn d l0 rows0 :
  d !! conn_path conn = Some rows0 ->
  loop_post fn np k s all conn d l0 []
    (fun c d' evs =>
       conn_path c = conn_path conn /\
       (forall q, q <> conn_path conn -> d' !! q = d !! q) /\
       (exists rows, d' !! conn_path conn = Some rows /\
          rows ++ pending c = (rows0 ++ pending conn) ++ inserted evs) /\
       ids_chain (rows0 ++ pending conn) (inserted evs))
    (fun e d' evs =>
       (exists rows, d' !! conn_path conn = Some rows /\
          rows `prefix_of` (rows0 ++ pending conn) ++ inserted evs) /\
       ids_chain (rows0 ++ pending conn) (inserted evs) /\
       (k = 0 \/
        exists raw, raw ∈ all /\ strip raw <> [] /\
                    encode (strip raw) = None)).
Proof.
  intros Hd.
  replace s with (s + Z.of_nat (length (@nil str))) at 1 by (simpl; lia).
  apply (for_pages_rule
           (fun _ c d' evs =>
              conn_path c = conn_path conn /\
              (forall q, q <> conn_path conn -> d' !! q = d !! q) /\
              (exists rows, d' !! conn_path conn = Some rows /\
                 rows ++ pending c = (rows0 ++ pending conn) ++ inserted evs) /\
              ids_chain (rows0 ++ pending conn) (inserted evs)))
    with (all := all).
  - intros done raw rest c0 d0 evs r d' bevs Hall
      (Hp & Hfr & (rows & Hrows & Hview) & Hch) Hout.
    inversion Hout; subst r d' bevs;
      rewrite ?inserted_app; simpl; rewrite ?app_nil_r.
    + repeat split; eauto.
    + split; [|split; [assumption|]].
      * exists rows. split; [assumption|].
        rewrite <- Hview. apply prefix_app_r. reflexivity.
      * right. exists raw. subst all.
        split; [|auto]. apply elem_of_app. right. left.
    + congruence.
    + split; [|split; [|auto]].
      * exists rows. split; [assumption|].
        rewrite app_assoc, <- Hview, <- app_assoc.
        apply prefix_app_r. reflexivity.
      * apply ids_chain_snoc. split; [assumption|].
        subst r0. simpl. rewrite Hp in *. rewrite <- Hview.
        congruence.
    + rewrite Hp in *.
      assert (rows1 = rows) by congruence. subst rows1.
      repeat split; simpl; auto.
      * intros q Hq. rewrite lookup_insert_ne by auto. auto.
      * exists (rows ++ pending c0 ++ [r0]).
        rewrite lookup_insert_eq. split; [reflexivity|].
        rewrite app_nil_r, !app_assoc, Hview. reflexivity.
      * apply ids_chain_snoc. split; [assumption|].
        subst r0. simpl. rewrite <- Hview. reflexivity.
    + rewrite Hp in *.
      assert (rows1 = rows) by congruence. subst rows1.
      repeat split; simpl; auto.
      * exists rows. split; [assumption|].
        rewrite !app_assoc, Hview. reflexivity.
      * apply ids_chain_snoc. split; [assumption|].
        subst r0. simpl. rewrite <- Hview. reflexivity.
  - reflexivity.
  - simpl. repeat split; auto.
    exists rows0. rewrite app_nil_r. auto.
Qed.

(** Every blank page that was passed has been reported. *)
Lemma loop_reports fn np k s all conn d l0 :
  loop_post fn np k s all conn d l0 []
    (fun _ _ evs =>
       forall i raw, all !! i = Some raw -> strip raw = [] ->
                     Print (msg_skipping (s + Z.of_nat i)) ∈ evs)
    (fun _ _ _ => True).
Proof.
  replace s with (s + Z.of_nat (length (@nil str))) at 1 by (simpl; lia).
  apply (for_pages_rule
           (fun done _ _ evs =>
              forall i raw, done !! i = Some raw -> strip raw = [] ->
                            Print (msg_skipping (s + Z.of_nat i)) ∈ evs)).
  - intros done raw rest c0 d0 evs r d' bevs Hall Hinv Hout.
    assert (Hstep : forall tl,
               (strip raw = [] ->
                Print (msg_skipping (s + Z.of_nat (length done))) ∈ tl) ->
               forall i raw0, (done ++ [raw]) !! i = Some raw0 ->
                 strip raw0 = [] ->
                 Print (msg_skipping (s + Z.of_nat i)) ∈ evs ++ tl).
    { intros tl Htl i raw0 Hi Hs. apply elem_of_app.
      apply lookup_snoc_Some in Hi as [[_ Hi]|[-> ->]]; eauto. }
    inversion Hout; subst r d' bevs; try exact I;
      apply Hstep; intros Hs; try contradiction.
    left.
  - reflexivity.
  - intros i raw Hi. inversion Hi.
Qed.

(** The embedding column of an inserted row is the JSON text of what the
    model returned for the text of that row. *)
Lemma loop_embeddings fn np k s all conn d l0 :
  loop_post fn np k s all conn d l0 []
    (fun _ _ evs =>
       Forall (fun row => exists t, encode (text row) = Some t /\
                                    embedding row = json_dumps t)
         (inserted evs))
    (fun _ _ evs =>
       Forall (fun row => exists t, encode (text row) = Some t /\
                                    embedding row = json_dumps t)
         (inserted evs)).
Proof.
  replace s with (s + Z.of_nat (length (@nil str))) at 1 by (simpl; lia).
  apply (for_pages_rule
           (fun _ _ _ evs =>
              Forall (fun row => exists t, encode (text row) = Some t /\
                                           embedding row = json_dumps t)
                (inserted evs))) with (all := all).
  - intros done raw rest c0 d0 evs r d' bevs Hall Hinv Hout.
    inversion Hout; subst r d' bevs;
      rewrite inserted_app; simpl; rewrite ?app_nil_r; try assumption;
      apply Forall_app; (split; [assumption|]);
      (constructor; [|constructor]); subst r0 v; simpl;
      eexists; (split; [eassumption|reflexivity]).
  - reflexivity.
  - constructor.
Qed.

(** ** The commit cadence *)

(** Quotient and remainder of the next page number. *)
Lemma div_mod_step k m :
  0 < k -> 0 <= m ->
  ((m + 1) mod k = 0 /\ (m + 1) / k = m / k + 1) \/
  ((m + 1) mod k <> 0 /\ (m + 1) / k = m / k /\
   (m + 1) mod k = m mod k + 1).
Proof.
  intros Hk Hm.
  pose proof (Z.div_mod m k ltac:(lia)) as Hdm.
  pose proof (Z.mod_pos_bound m k Hk) as Hb.
  destruct (Z.eq_dec (m mod k) (k - 1)) as [Hr|Hr].
  - left.
    assert (Heq : m + 1 = k * (m / k + 1) + 0) by lia.
    split.
    + symmetry. apply (Z.mod_unique_pos _ _ (m / k + 1)); lia.
    + symmetry. apply (Z.div_unique_pos _ _ _ 0); lia.
  - right.
    assert (Heq : m + 1 = k * (m / k) + (m mod k + 1)) by lia.
    assert (Hmod : (m + 1) mod k = m mod k + 1).
    { symmetry. apply (Z.mod_unique_pos _ _ (m / k)); lia. }
    repeat split; [lia| |exact Hmod].
    symmetry. apply (Z.div_unique_pos _ _ _ (m mod k + 1)); lia.
Qed.

(** When no page whose number is a multiple of the interval is blank, the
    loop commits once per full interval of pages, and the rows inserted
    since the last commit never outnumber the interval. *)
Lemma loop_cadence fn np k all conn d l0 :
  0 < k ->
  (forall i raw, all !! i = Some raw ->
                 (1 + Z.of_nat i) mod k = 0 -> strip raw <> []) ->
  loop_post fn np k 1 all conn d l0 []
    (fun _ _ evs =>
       count_commits evs = Z.to_nat (Z.of_nat (length all) / k) /\
       Z.of_nat (scan 0 0 evs).1 <= Z.of_nat (length all) mod k /\
       Z.of_nat (scan 0 0 evs).2 <= k)
    (fun _ _ evs => Z.of_nat (scan 0 0 evs).2 <= k).
Proof.
  intros Hk Hmult.
  change 1 with (1 + Z.of_nat (length (@nil str))) at 1.
  apply (for_pages_rule
           (fun done _ _ evs =>
              count_commits evs = Z.to_nat (Z.of_nat (length done) / k) /\
              Z.of_nat (scan 0 0 evs).1 <= Z.of_nat (length done) mod k /\
              Z.of_nat (scan 0 0 evs).2 <= k)).
  - intros done raw rest c0 d0 evs r d' bevs Hall (Hc & Hu & Hpk) Hout.
    assert (Hraw : all !! length done = Some raw).
    { subst all. rewrite lookup_app_r by lia.
      rewrite Nat.sub_diag. reflexivity. }
    pose proof (Z.mod_pos_bound (Z.of_nat (length done)) k Hk) as Hb.
    assert (Hlen : Z.of_nat (length (done ++ [raw]))
                   = Z.of_nat (length done) + 1)
      by (rewrite length_app; simpl; lia).
    assert (Hn : 1 + Z.of_nat (length done) = Z.of_nat (length done) + 1)
      by lia.
    destruct (div_mod_step k (Z.of_nat (length done)) Hk ltac:(lia))
      as [[Hm Hq]|(Hm & Hq & Hr)];
      inversion Hout; subst r d' bevs;
      rewrite ?count_commits_app, ?scan_app, ?Hlen; simpl;
      try lia; try congruence;
      try (exfalso; eapply Hmult; eauto; rewrite Hn; exact Hm).
    + rewrite Hc, Hq, Hm. unfold count_commits. simpl.
      repeat split; try lia.
      rewrite Z2Nat.inj_add by (try apply Z.div_pos; lia). simpl. lia.
    + rewrite Hc, Hq, Hr. unfold count_commits. simpl.
      repeat split; lia.
    + rewrite Hc, Hq, Hr. unfold count_commits. simpl.
      repeat split; lia.
  - reflexivity.
  - simpl. rewrite Z.div_0_l, Z.mod_0_l by lia.
    repeat split; try reflexivity; lia.
Qed.

(** Two facts about one run of the loop hold together. *)
Lemma loop_post_and fn np k n rest conn d l0 evs I1 E1 I2 E2 :
  loop_post fn np k n rest conn d l0 evs I1 E1 ->
  loop_post fn np k n rest conn d l0 evs I2 E2 ->
  loop_post fn np k n rest conn d l0 evs
    (fun c d' evs' => I1 c d' evs' /\ I2 c d' evs')
    (fun e d' evs' => E1 e d' evs' /\ E2 e d' evs').
Proof.
  intros (r1 & d1 & ev1 & Hr1 & H1) (r2 & d2 & ev2 & Hr2 & H2).
  rewrite Hr1 in Hr2. injection Hr2 as Hr Hd Hl.
  apply app_inv_head in Hl. subst r2 d2 ev2.
  exists r1, d1, ev1. split; [exact Hr1|].
  destruct r1; auto.
Qed.

(** ** [process_pdf] around its loop *)

Lemma process_pdf_unreadable pdf_path conn k w :
  fitz_open pdf_path = None ->
  process_pdf pdf_path conn k w
  = (Raise FileDataError, mkWorld (disk w) (log w ++ [OpenDoc pdf_path])).
Proof.
  intros Ho. unfold process_pdf, bind, emit. simpl. rewrite Ho. reflexivity.
Qed.

Lemma process_pdf_run pdf_path conn k w doc Q E :
  fitz_open pdf_path = Some doc ->
  loop_post (path_name pdf_path) (Z.of_nat (length doc)) k 1 doc conn
    (disk w)
    (log w ++ [OpenDoc pdf_path;
               Print (msg_start (path_name pdf_path)
                        (Z.of_nat (length doc)))]) [] Q E ->
  exists r w' evs,
    process_pdf pdf_path conn k w = (r, w') /\
    log w' = log w
             ++ [OpenDoc pdf_path;
                 Print (msg_start (path_name pdf_path)
                          (Z.of_nat (length doc)))]
             ++ evs
             ++ match r with
                | Ok _ => [Commit; Print (msg_finished (path_name pdf_path))]
                | Raise _ => []
                end /\
    match r with
    | Ok conn' =>
        exists c d, Q c d evs /\ conn' = mkConn (conn_path c) [] /\
                    disk w' = flushed c d
    | Raise e => E e (disk w') evs
    end.
Proof.
  intros Ho (r & d' & evs & Hrun & Hpost).
  unfold process_pdf. rewrite Ho.
  cbv [bind emit print]. cbn [disk log].
  rewrite app_nil_r in Hrun. rewrite <- app_assoc. cbn [app].
  rewrite Hrun. destruct r as [c|e].
  - exists (Ok (mkConn (conn_path c) [])). eexists. exists evs.
    cbv [commit ret]. cbn [disk log].
    split; [reflexivity|]. split.
    + rewrite <- !app_assoc. reflexivity.
    + exists c, d'. auto.
  - exists (Raise e). eexists. exists evs.
    split; [reflexivity|]. cbn [disk log]. split; [|assumption].
    rewrite app_nil_r, <- app_assoc. reflexivity.
Qed.

Lemma flushed_lookup c d rows :
  d !! conn_path c = Some rows ->
  flushed c d !! conn_path c = Some (rows ++ pending c).
Proof.
  intros Hd. unfold flushed. rewrite Hd. apply lookup_insert_eq.
Qed.

Lemma flushed_lookup_ne c d q :
  q <> conn_path c -> flushed c d !! q = d !! q.
Proof.
  intros Hq. unfold flushed.
  destruct (d !! conn_path c); [|reflexivity].
  apply lookup_insert_ne. auto.
Qed.

(** A document whose non-blank pages the model can embed. *)
Lemma embeddable_no_failure (doc : list str) :
  Forall (fun raw => strip raw = [] \/ is_Some (encode (strip raw))) doc ->
  ~ exists raw, raw ∈ doc /\ strip raw <> [] /\ encode (strip raw) = None.
Proof.
  intros Hall (raw & Hin & Hne & Hnone).
  rewrite Forall_forall in Hall.
  destruct (Hall raw Hin) as [Hs|[t Ht]]; congruence.
Qed.

(** ** Row ids *)

Lemma max_id_snoc view r :
  max_id (view ++ [r])
  = Some (match max_id view with
          | None => id r
          | Some m => Z.max m (id r)
          end).
Proof.
  induction view as [|r0 view IH]; [reflexivity|].
  change (max_id ((r0 :: view) ++ [r]))
    with (Some (match max_id (view ++ [r]) with
                | None => id r0
                | Some m => Z.max (id r0) m
                end)).
  rewrite IH.
  change (max_id (r0 :: view))
    with (Some (match max_id view with
                | None => id r0
                | Some m => Z.max (id r0) m
                end)).
  destruct (max_id view); f_equal; lia.
Qed.

Lemma max_id_bound view old :
  old ∈ view -> exists m, max_id view = Some m /\ id old <= m.
Proof.
  induction view as [|r0 view IH]; intros Hin; [inversion Hin|].
  change (max_id (r0 :: view))
    with (Some (match max_id view with
                | None => id r0
                | Some m => Z.max (id r0) m
                end)).
  apply elem_of_cons in Hin as [->|Hin].
  - eexists. split; [reflexivity|]. destruct (max_id view); lia.
  - destruct (IH Hin) as (m & -> & Hm).
    eexists. split; [reflexivity|]. lia.
Qed.

(** While there is room, each id is one more than the largest in use:
    the ids of rows inserted one after the other grow, and exceed all
    that were there. *)
Lemma ids_chain_increasing rs : forall view,
  rowid_room view (Z.of_nat (length rs)) ->
  ids_chain view rs ->
  StronglySorted Z.lt (id <$> rs) /\
  forall old r, old ∈ view -> r ∈ rs -> id old < id r.
Proof.
  induction rs as [|r rs IH]; intros view Hroom Hch.
  - split; [constructor|]. intros old r _ Hr. inversion Hr.
  - destruct Hch as [Hid Hch].
    assert (Hnew : (forall old, old ∈ view -> id old < id r) /\
                   rowid_room (view ++ [r]) (Z.of_nat (length rs))).
    { unfold rowid_room, next_rowid in *. rewrite max_id_snoc.
      simpl length in Hroom.
      destruct (max_id view) as [m|] eqn:Hmax.
      - destruct (Z.ltb_spec m MAX_ROWID); [|lia].
        split; [|lia]. intros old Hold.
        destruct (max_id_bound _ _ Hold) as (m' & Hm' & Hle).
        assert (m' = m) by congruence. lia.
      - split; [|lia]. intros old Hold.
        destruct (max_id_bound _ _ Hold) as (m' & Hm' & _). congruence. }
    destruct Hnew as [Hold Hroom'].
    destruct (IH _ Hroom' Hch) as [Hsorted Hlt].
    split.
    + simpl. constructor; [exact Hsorted|].
      apply Forall_forall. intros x Hx.
      apply list_elem_of_fmap in Hx as (r' & -> & Hr').
      apply Hlt; [|exact Hr']. apply elem_of_app. right. left.
    + intros old r' Hin Hr'.
      apply elem_of_cons in Hr' as [->|Hr']; [auto|].
      apply Hlt; [|exact Hr']. apply elem_of_app. left. exact Hin.
Qed.

(** Without room the engine draws the id, and it need not be larger. *)
Lemma next_rowid_saturated view :
  max_id view = Some MAX_ROWID ->
  next_rowid view = random_rowid (id <$> view).
Proof. intros Hm. unfold next_rowid. rewrite Hm. reflexivity. Qed.

Lemma rowid_room_le view n n' :
  n' <= n -> rowid_room view n -> rowid_room view n'.
Proof. unfold rowid_room. lia. Qed.

(** ** The final component of a path *)




(** ** A pass as a whole

    What every pass over a readable document establishes, whether it
    returns or raises, in terms of all it logged. *)
Lemma process_pdf_summary pdf_path conn k w doc rows0 :
  fitz_open pdf_path = Some doc ->
  disk w !! conn_path conn = Some rows0 ->
  exists r w' evs,
    process_pdf pdf_path conn k w = (r, w') /\
    log w' = log w ++ evs /\
    page_text <$> inserted evs `prefix_of` kept 1 doc /\
    encoded evs `prefix_of` (kept 1 doc).*2 /\
    Forall (fun row => filename row = path_name pdf_path) (inserted evs) /\
    Forall loop_event evs /\
    ids_chain (rows0 ++ pending conn) (inserted evs) /\
    (exists rows, disk w' !! conn_path conn = Some rows /\
       rows `prefix_of` (rows0 ++ pending conn) ++ inserted evs) /\
    match r with
    | Ok conn' =>
        page_text <$> inserted evs = kept 1 doc /\
        encoded evs = text <$> inserted evs /\
        disk w' !! conn_path conn
        = Some ((rows0 ++ pending conn) ++ inserted evs) /\
        (forall (i : nat) raw, doc !! i = Some raw -> strip raw = [] ->
           Print (msg_skipping (1 + Z.of_nat i)) ∈ evs)
    | Raise e =>
        k = 0 \/
        exists raw, raw ∈ doc /\ strip raw <> [] /\
                    encode (strip raw) = None
    end.
Proof.
  intros Ho Hd.
  destruct (process_pdf_run pdf_path conn k w doc _ _ Ho
              (loop_post_and _ _ _ _ _ _ _ _ _ _ _ _ _
                 (loop_rows _ _ _ _ _ _ _ _)
                 (loop_post_and _ _ _ _ _ _ _ _ _ _ _ _ _
                    (loop_view _ _ _ _ _ _ _ _ _ Hd)
                    (loop_reports _ _ _ _ _ _ _ _))))
    as (r & w' & evs & Hrun & Hlog & Hpost).
  exists r, w'. eexists. split; [exact Hrun|]. split; [exact Hlog|].
  assert (Hins : forall tl, inserted tl = [] ->
            inserted ([OpenDoc pdf_path;
                       Print (msg_start (path_name pdf_path)
                                (Z.of_nat (length doc)))] ++ evs ++ tl)
            = inserted evs).
  { intros tl Htl. simpl. rewrite inserted_app, Htl. apply app_nil_r. }
  assert (Henc : forall tl, encoded tl = [] ->
            encoded ([OpenDoc pdf_path;
                      Print (msg_start (path_name pdf_path)
                               (Z.of_nat (length doc)))] ++ evs ++ tl)
            = encoded evs).
  { intros tl Htl. simpl. rewrite encoded_app, Htl. apply app_nil_r. }
  destruct r as [conn'|e].
  - destruct Hpost as (c & d & [(Hpt & He & Hf & Hl)
                                [(Hp & _ & (rows & Hr & Hv) & Hch) Hrep]]
                         & -> & Hdisk).
    assert (Hstore : disk w' !! conn_path conn
                     = Some ((rows0 ++ pending conn) ++ inserted evs)).
    { rewrite Hdisk, <- Hp, <- Hv. apply flushed_lookup.
      rewrite Hp. exact Hr. }
    assert (Hte : encoded evs = text <$> inserted evs).
    { rewrite He, <- Hpt, <- list_fmap_compose. reflexivity. }
    rewrite Hins, Henc by reflexivity.
    rewrite Hte at 2. rewrite Hpt, He.
    repeat split; try reflexivity; try assumption.
    + repeat constructor.
      apply Forall_app. split; [assumption|]. repeat constructor.
    + exists ((rows0 ++ pending conn) ++ inserted evs).
      split; [exact Hstore|reflexivity].
    + intros i raw Hi Hs. right. right. apply elem_of_app. left. eauto.
  - destruct Hpost as [(Hpt & He & Hf & Hl) [(Hst & Hch & Hwhy) _]].
    rewrite Hins, Henc by reflexivity.
    repeat split; try assumption.
    repeat constructor.
    apply Forall_app. split; [assumption|]. constructor.
Qed.

(** The rows of kept pages carry the trimmed, non-empty text of the page
    they are numbered after. *)
Lemma rows_of_kept n doc (rs : list Row) :
  page_text <$> rs `prefix_of` kept n doc ->
  Forall (fun row =>
            text row <> [] /\
            exists (i : nat) raw,
              doc !! i = Some raw /\ page row = n + Z.of_nat i /\
              text row = strip raw) rs.
Proof.
  intros [tl Hpre]. apply Forall_forall. intros row Hrow.
  assert (Hin : (page row, text row) ∈ kept n doc).
  { rewrite Hpre. apply elem_of_app. left.
    apply (list_elem_of_fmap_2 page_text). exact Hrow. }
  destruct (kept_lookup _ _ _ _ Hin) as (i & raw & Hi & Hp & Ht & Hne).
  split; [exact Hne|]. exists i, raw. auto.
Qed.

(** ** The claims about [process_pdf] *)

(** C3: for a document of N pages, none of them blank, processing adds
    exactly N rows to the table (after the rows the connection already
    saw), and their page numbers are 1, ..., N in insertion order. *)
Theorem process_pdf_records_every_page pdf_path conn k w doc rows0 :
  fitz_open pdf_path = Some doc ->
  disk w !! conn_path conn = Some rows0 ->
  k <> 0 ->
  Forall (fun raw => strip raw <> [] /\ is_Some (encode (strip raw))) doc ->
  exists conn' w' new,
    process_pdf pdf_path conn k w = (Ok conn', w') /\
    disk w' !! conn_path conn = Some ((rows0 ++ pending conn) ++ new) /\
    length new = length doc /\
    page <$> new = seqZ 1 (Z.of_nat (length doc)).
Proof.
  intros Ho Hd Hk Hdoc.
  destruct (process_pdf_run pdf_path conn k w doc _ _ Ho
              (loop_post_and _ _ _ _ _ _ _ _ _ _ _ _ _
                 (loop_rows _ _ _ _ _ _ _ _)
                 (loop_view _ _ _ _ _ _ _ _ _ Hd)))
    as (r & w' & evs & Hrun & Hlog & Hpost).
  destruct r as [conn'|e].
  - destruct Hpost as (c & d & [(Hpt & _) (Hp & _ & (rows & Hr & Hv) & _)]
                         & -> & Hdisk).
    assert (Hpages : page <$> inserted evs = seqZ 1 (Z.of_nat (length doc))).
    { rewrite <- (kept_all_nonblank 1 doc), <- Hpt.
      - rewrite <- list_fmap_compose. reflexivity.
      - eapply Forall_impl; [exact Hdoc|]. intros raw [Hne _]. exact Hne. }
    exists (mkConn (conn_path c) []), w', (inserted evs).
    split; [exact Hrun|]. split; [|split; [|exact Hpages]].
    + rewrite Hdisk, <- Hp, <- Hv. apply flushed_lookup.
      rewrite Hp. exact Hr.
    + rewrite <- (length_fmap page), Hpages, length_seqZ. lia.
  - destruct Hpost as [_ (_ & _ & [Hz|Hfail])]; [contradiction|].
    exfalso. eapply embeddable_no_failure; [|exact Hfail].
    eapply Forall_impl; [exact Hdoc|]. intros raw [_ He]. right. exact He.
Qed.

Lemma kept_length n doc : (length (kept n doc) <= length doc)%nat.
Proof.
  revert n. induction doc as [|raw doc IH]; intros n; simpl; [lia|].
  specialize (IH (n + 1)).
  destruct (is_empty (strip raw)); simpl; lia.
Qed.

(** The commits and the uncommitted peak of a whole pass, from those of
    its loop. *)
Lemma pass_commits e1 e2 evs e3 :
  is_commit e1 = false -> is_commit e2 = false -> is_commit e3 = false ->
  count_commits ([e1; e2] ++ evs ++ [Commit; e3]) = S (count_commits evs).
Proof.
  intros H1 H2 H3. unfold count_commits. simpl. rewrite H1, H2.
  rewrite List.filter_app, length_app. simpl. rewrite H3. simpl. lia.
Qed.


(** C4: a document of three pages, the second of them blank, processed
    with an interval of 50, leaves exactly two new rows, of pages 1 and 3,
    and commits exactly once: the commit after the loop, followed only by
    the closing message. *)
Theorem process_pdf_three_pages_middle_blank
    pdf_path conn w p1 p2 p3 rows0 :
  fitz_open pdf_path = Some [p1; p2; p3] ->
  disk w !! conn_path conn = Some rows0 ->
  strip p1 <> [] -> strip p2 = [] -> strip p3 <> [] ->
  is_Some (encode (strip p1)) -> is_Some (encode (strip p3)) ->
  exists conn' w' pre r1 r3,
    process_pdf pdf_path conn 50 w = (Ok conn', w') /\
    disk w' !! conn_path conn = Some ((rows0 ++ pending conn) ++ [r1; r3]) /\
    page r1 = 1 /\ page r3 = 3 /\
    log w' = log w ++ pre
             ++ [Commit; Print (msg_finished (path_name pdf_path))] /\
    count_commits pre = 0%nat /\
    count_commits
      (pre ++ [Commit; Print (msg_finished (path_name pdf_path))]) = 1%nat.
Proof.
  intros Ho Hd H1 H2 H3 He1 He3.
  assert (Hmult : forall (i : nat) raw, [p1; p2; p3] !! i = Some raw ->
                    (1 + Z.of_nat i) mod 50 = 0 -> strip raw <> []).
  { intros [|[|[|i]]] raw Hi Hm; simpl in Hi; try discriminate;
      vm_compute in Hm; discriminate. }
  destruct (process_pdf_run pdf_path conn 50 w _ _ _ Ho
              (loop_post_and _ _ _ _ _ _ _ _ _ _ _ _ _
                 (loop_rows _ _ _ _ _ _ _ _)
                 (loop_post_and _ _ _ _ _ _ _ _ _ _ _ _ _
                    (loop_view _ _ _ _ _ _ _ _ _ Hd)
                    (loop_cadence _ _ 50 _ _ _ _ ltac:(lia) Hmult))))
    as (r & w' & evs & Hrun & Hlog & Hpost).
  destruct r as [conn'|e].
  - destruct Hpost as (c & d & [(Hpt & _) [(Hp & _ & (rows & Hr & Hv) & _)
                                           (Hc & _)]] & -> & Hdisk).
    simpl in Hpt. rewrite H2 in Hpt. simpl in Hpt.
    destruct (strip p1) eqn:Hs1; [contradiction|].
    destruct (strip p3) eqn:Hs3; [contradiction|]. simpl in Hpt.
    destruct (inserted evs) as [|r1 [|r3 [|]]] eqn:Hins; try discriminate.
    injection Hpt as Hp1 _ Hp3 _.
    exists (mkConn (conn_path c) []), w',
      ([OpenDoc pdf_path;
        Print (msg_start (path_name pdf_path) 3)] ++ evs), r1, r3.
    split; [exact Hrun|]. split; [|split; [exact Hp1|split; [exact Hp3|]]].
    + rewrite Hdisk, <- Hp, <- Hv. apply flushed_lookup.
      rewrite Hp. exact Hr.
    + split; [rewrite Hlog, <- !app_assoc; reflexivity|].
      change (Z.to_nat (Z.of_nat (length [p1; p2; p3]) / 50)) with 0%nat
        in Hc.
      split.
      * unfold count_commits in *. simpl. exact Hc.
      * rewrite <- app_assoc, pass_commits by reflexivity.
        rewrite Hc. reflexivity.
  - destruct Hpost as [_ [(_ & _ & [Hz|Hfail]) _]]; [discriminate|].
    destruct Hfail as (raw & Hin & Hne & Hnone).
    repeat (apply elem_of_cons in Hin as [->|Hin]);
      try (rewrite Hnone in *; match goal with
                                | Hx : is_Some None |- _ =>
                                    destruct Hx; discriminate
                                end);
      try contradiction.
    inversion Hin.
Qed.


(** What is stored in the embedding column: for every row of the pass, the
    JSON text of the vector the model returned for the text of that row.
    (Reading the column back is the business of the JSON reader of whoever
    consumes the store.) *)
Lemma process_pdf_embedding_column pdf_path conn k w doc :
  fitz_open pdf_path = Some doc ->
  exists r w' evs,
    process_pdf pdf_path conn k w = (r, w') /\
    Forall (fun row => exists t, encode (text row) = Some t /\
                                 embedding row = json_dumps t)
      (inserted evs) /\
    inserted (new_events w w') = inserted evs.
Proof.
  intros Ho.
  destruct (process_pdf_run pdf_path conn k w doc _ _ Ho
              (loop_embeddings _ _ _ _ _ _ _ _))
    as (r & w' & evs & Hrun & Hlog & Hpost).
  exists r, w', evs. split; [exact Hrun|].
  split; [destruct r as [c|e]; [destruct Hpost as (? & ? & ? & _)|];
          assumption|].
  unfold new_events. rewrite Hlog, drop_app_length. simpl.
  rewrite inserted_app. destruct r; simpl; apply app_nil_r.
Qed.

(** C2: a page whose trimmed text is empty gets no row and no model
    call, only a line on the console: the model is never handed an empty
    text and, on return, has been called exactly on the texts recorded;
    whatever the pass adds to the table is a row of a page with non-empty
    trimmed text. *)
Theorem process_pdf_skips_blank_pages pdf_path conn k w doc rows0 :
  fitz_open pdf_path = Some doc ->
  disk w !! conn_path conn = Some rows0 ->
  exists r w' evs,
    process_pdf pdf_path conn k w = (r, w') /\
    log w' = log w ++ evs /\
    (forall (i : nat) raw, doc !! i = Some raw -> strip raw = [] ->
       (forall row, row ∈ inserted evs -> page row <> 1 + Z.of_nat i) /\
       ((exists conn', r = Ok conn') ->
        Print (msg_skipping (1 + Z.of_nat i)) ∈ evs)) /\
    ([] ∉ encoded evs) /\
    (length (encoded evs) <= length (kept 1 doc))%nat /\
    ((exists conn', r = Ok conn') -> encoded evs = text <$> inserted evs) /\
    Forall (fun row =>
              text row <> [] /\
              exists (i : nat) raw,
                doc !! i = Some raw /\ page row = 1 + Z.of_nat i /\
                text row = strip raw) (inserted evs) /\
    exists rows,
      disk w' !! conn_path conn = Some rows /\
      forall row, row ∈ rows ->
                  row ∈ rows0 ++ pending conn \/ row ∈ inserted evs.
Proof.
  intros Ho Hd.
  destruct (process_pdf_summary pdf_path conn k w doc rows0 Ho Hd)
    as (r & w' & evs & Hrun & Hlog & Hpt & He & _ & _ & _
        & (rows & Hrows & Hpre) & Hpost).
  exists r, w', evs. split; [exact Hrun|]. split; [exact Hlog|].
  pose proof (rows_of_kept _ _ _ Hpt) as Hgood.
  split; [|split; [|split; [|split; [|split; [exact Hgood|]]]]].
  - intros i raw Hi Hs. split.
    + intros row Hrow Hpage. rewrite Forall_forall in Hgood.
      destruct (Hgood row Hrow) as (Hne & i' & raw' & Hi' & Hp' & Ht').
      assert (i' = i) by lia. subst i'.
      rewrite Hi in Hi'. injection Hi' as <-. congruence.
    + intros [conn' ->]. destruct Hpost as (_ & _ & _ & Hrep). eauto.
  - intros Hin. destruct He as [tl He].
    assert (Hk : [] ∈ (kept 1 doc).*2).
    { rewrite He. apply elem_of_app. left. exact Hin. }
    apply list_elem_of_fmap in Hk as ([pg t] & Ht & Hk). simpl in Ht.
    subst t. destruct (kept_lookup _ _ _ _ Hk) as (_ & _ & _ & _ & _ & Hne).
    congruence.
  - apply prefix_length in He. rewrite length_fmap in He. exact He.
  - intros [conn' ->]. destruct Hpost as (_ & Hte & _). exact Hte.
  - exists rows. split; [exact Hrows|]. intros row Hrow.
    destruct Hpre as [tl Hpre].
    assert (Hin : row ∈ (rows0 ++ pending conn) ++ inserted evs).
    { rewrite Hpre. apply elem_of_app. left. exact Hrow. }
    apply elem_of_app in Hin. exact Hin.
Qed.


(** ** [init_db] *)

Lemma init_db_run db_path w :
  init_db db_path w
  = (Ok (mkConn db_path []),
     mkWorld (with_table db_path (disk w))
       (log w ++ [Connect db_path; Commit])).
Proof.
  unfold init_db, connect, create_table_if_not_exists, commit, with_table.
  cbv [bind emit ret]. cbn [disk log conn_path pending].
  destruct (disk w !! db_path) as [rows|] eqn:Hd;
    cbn [disk log]; unfold flushed; cbn [conn_path pending].
  - rewrite Hd, app_nil_r, insert_id, <- app_assoc by exact Hd.
    reflexivity.
  - rewrite lookup_insert_eq, insert_insert_eq, <- app_assoc. reflexivity.
Qed.

Lemma with_table_lookup db_path d :
  with_table db_path d !! db_path
  = Some (match d !! db_path with Some rows => rows | None => [] end).
Proof.
  unfold with_table. destruct (d !! db_path) eqn:Hd; [exact Hd|].
  apply lookup_insert_eq.
Qed.

Lemma with_table_twice db_path d :
  with_table db_path (with_table db_path d) = with_table db_path d.
Proof.
  unfold with_table at 1. rewrite with_table_lookup. reflexivity.
Qed.

(** C6: initialising the store twice in a row at the same path succeeds
    both times; the second call changes nothing on disk; a table that was
    there keeps its rows as they were, a missing one is created empty, and
    no other table is touched. *)
Theorem init_db_twice db_path w :
  exists c1 w1 c2 w2,
    init_db db_path w = (Ok c1, w1) /\
    init_db db_path w1 = (Ok c2, w2) /\
    disk w2 = disk w1 /\
    (forall rows, disk w !! db_path = Some rows ->
                  disk w1 = disk w /\ disk w2 = disk w) /\
    (disk w !! db_path = None -> disk w2 !! db_path = Some []) /\
    (forall q, q <> db_path -> disk w2 !! q = disk w !! q).
Proof.
  do 4 eexists.
  split; [apply init_db_run|]. split; [apply init_db_run|].
  cbn [disk]. rewrite with_table_twice.
  split; [reflexivity|]. split; [|split].
  - intros rows Hd. unfold with_table. rewrite Hd. auto.
  - intros Hd. rewrite with_table_lookup, Hd. reflexivity.
  - intros q Hq. unfold with_table.
    destruct (disk w !! db_path); [reflexivity|].
    apply lookup_insert_ne. auto.
Qed.

(** ** [main] *)

Lemma main_run prog pdf_file rest w :
  path_exists pdf_file = true ->
  main (prog :: pdf_file :: rest) w
  = match process_pdf pdf_file (mkConn db_file []) 50
            (mkWorld (with_table db_file (disk w))
               (log w ++ [Print msg_loading; Print msg_loaded;
                          Connect db_file; Commit])) with
    | (Ok _, w2) =>
        (Ok tt,
         mkWorld (disk w2) (log w2 ++ [Close; Print (msg_saved db_file)]))
    | (Raise e, w2) => (Raise e, w2)
    end.
Proof.
  intros Hex. unfold main. rewrite Hex. cbn [negb].
  unfold bind at 1. unfold print at 1, emit at 1.
  unfold bind at 1. unfold print at 1, emit at 1.
  unfold bind at 1. rewrite init_db_run. cbn [disk log].
  rewrite <- !app_assoc. cbn [app].
  unfold bind at 1.
  destruct (process_pdf _ _ _ _) as [[c|e] w2]; [|reflexivity].
  cbv [bind close print emit]. cbn [disk log].
  rewrite <- app_assoc. reflexivity.
Qed.

(** C7: with no path argument, or with a path that does not exist, the
    program prints one diagnostic line and exits with status 1; the disk
    is as before and nothing else is logged: no connection is opened. *)
Theorem main_usage_error argv w :
  (length argv < 2)%nat \/
  (exists p, argv !! 1%nat = Some p /\ path_exists p = false) ->
  main argv w
  = (Raise (SystemExit 1),
     mkWorld (disk w)
       (log w ++ [Print (match argv !! 1%nat with
                         | None => msg_usage
                         | Some p => msg_missing p
                         end)])) /\
  exit_code (main argv w).1 = 1.
Proof.
  intros Hargs.
  assert (Hmain : main argv w
            = (Raise (SystemExit 1),
               mkWorld (disk w)
                 (log w ++ [Print (match argv !! 1%nat with
                                   | None => msg_usage
                                   | Some p => msg_missing p
                                   end)]))).
  { destruct argv as [|prog [|p rest]]; try reflexivity.
    destruct Hargs as [Hlen|(p' & Hp' & Hex)]; [simpl in Hlen; lia|].
    simpl in Hp'. injection Hp' as <-.
    unfold main. rewrite Hex. reflexivity. }
  split; [exact Hmain|]. rewrite Hmain. reflexivity.
Qed.

(** C9: when the path exists, the document opens and the model embeds
    every page that is not blank, the run returns and the exit status is
    0, however many pages are blank, and also when all of them are. *)
Theorem main_exit_zero prog pdf_file rest w doc :
  path_exists pdf_file = true ->
  fitz_open pdf_file = Some doc ->
  Forall (fun raw => strip raw = [] \/ is_Some (encode (strip raw))) doc ->
  (main (prog :: pdf_file :: rest) w).1 = Ok tt /\
  exit_code (main (prog :: pdf_file :: rest) w).1 = 0.
Proof.
  intros Hex Ho Hdoc.
  assert (Hmain : (main (prog :: pdf_file :: rest) w).1 = Ok tt).
  { rewrite main_run by exact Hex.
    destruct (process_pdf_summary pdf_file (mkConn db_file []) 50
                (mkWorld (with_table db_file (disk w))
                   (log w ++ [Print msg_loading; Print msg_loaded;
                              Connect db_file; Commit]))
                doc _ Ho (with_table_lookup _ _))
      as (r & w' & evs & Hrun & _ & _ & _ & _ & _ & _ & _ & Hpost).
    rewrite Hrun. destruct r as [c|e]; [reflexivity|].
    destruct Hpost as [Hz|Hfail]; [discriminate|].
    exfalso. eapply embeddable_no_failure; eauto. }
  split; [exact Hmain|]. rewrite Hmain. reflexivity.
Qed.

(** C8 (as amended): [close()] is executed exactly on the runs of [main]
    that return: a run that ends in a usage error or in an exception
    raised while the document is processed logs no [Close]. *)
Theorem main_close_iff_returns argv w :
  exists r w' evs,
    main argv w = (r, w') /\
    log w' = log w ++ evs /\
    (Close ∈ evs <-> r = Ok tt).
Proof.
  assert (Hno : forall l : list event,
             Forall (fun e => is_close e = false) l -> Close ∉ l).
  { intros l Hl Hin. rewrite Forall_forall in Hl.
    specialize (Hl _ Hin). discriminate. }
  destruct argv as [|prog [|p rest]];
    try (do 3 eexists; split; [reflexivity|]; split; [reflexivity|];
         split; [intros Hin; apply Hno in Hin; [contradiction|];
                 repeat constructor
                |discriminate]).
  destruct (path_exists p) eqn:Hex.
  2:{ unfold main. rewrite Hex. cbn [negb].
      do 3 eexists. split; [reflexivity|]. split; [reflexivity|].
      split; [|discriminate].
      intros Hin. apply Hno in Hin; [contradiction|]. repeat constructor. }
  rewrite main_run by exact Hex.
  set (w1 := mkWorld _ _).
  assert (Hpdf : exists r w2 evs,
             process_pdf p (mkConn db_file []) 50 w1 = (r, w2) /\
             log w2 = log w1 ++ evs /\
             Forall (fun e => is_close e = false) evs).
  { destruct (fitz_open p) as [doc|] eqn:Ho.
    - destruct (process_pdf_summary p (mkConn db_file []) 50 w1 doc _ Ho
                  (with_table_lookup _ _))
        as (r & w2 & evs & Hrun & Hlog & _ & _ & _ & Hl & _).
      exists r, w2, evs. split; [exact Hrun|]. split; [exact Hlog|].
      eapply Forall_impl; [exact Hl|]. intros e [He _]. exact He.
    - rewrite process_pdf_unreadable by exact Ho.
      do 3 eexists. split; [reflexivity|]. split; [reflexivity|].
      repeat constructor. }
  destruct Hpdf as (r & w2 & evs & Hrun & Hlog & Hl).
  rewrite Hrun. subst w1. cbn [log] in Hlog.
  destruct r as [c|e]; do 3 eexists;
    (split; [reflexivity|]); cbn [log]; rewrite Hlog, <- ?app_assoc.
  - split; [reflexivity|]. split; [reflexivity|]. intros _.
    rewrite !elem_of_app. right. right. left.
  - split; [reflexivity|]. split; [|discriminate].
    intros Hin. apply Hno in Hin; [contradiction|].
    repeat constructor. exact Hl.
Qed.

End Properties.

(** * The theorems at work on concrete runs *)

(** Three pages of text are recorded as pages 1, 2, 3. *)
Lemma process_pdf_records_every_page_witness :
  exists conn' w' new,
    process_pdf (H := demo_env doc_full) report_pdf demo_conn 50 demo_world
    = (Ok conn', w') /\
    disk w' !! conn_path demo_conn
    = Some (([old_row] ++ pending demo_conn) ++ new) /\
    length new = length doc_full /\
    page <$> new = seqZ 1 (Z.of_nat (length doc_full)).
Proof.
  apply (process_pdf_records_every_page (H := demo_env doc_full)
           report_pdf demo_conn 50 demo_world doc_full [old_row]).
  - reflexivity.
  - reflexivity.
  - lia.
  - repeat constructor; try discriminate; eexists; reflexivity.
Defined.

(** Text, blank, text with the default interval: rows for pages 1 and 3,
    and the one commit at the end. *)
Lemma process_pdf_three_pages_middle_blank_witness :
  exists conn' w' pre r1 r3,
    process_pdf (H := demo_env doc_gap) report_pdf demo_conn 50 demo_world
    = (Ok conn', w') /\
    disk w' !! conn_path demo_conn
    = Some (([old_row] ++ pending demo_conn) ++ [r1; r3]) /\
    page r1 = 1 /\ page r3 = 3 /\
    log w' = log demo_world ++ pre
             ++ [Commit; Print (msg_finished (path_name report_pdf))] /\
    count_commits pre = 0%nat /\
    count_commits
      (pre ++ [Commit; Print (msg_finished (path_name report_pdf))]) = 1%nat.
Proof.
  apply (process_pdf_three_pages_middle_blank (H := demo_env doc_gap)
           report_pdf demo_conn demo_world
           (lit "alpha") (lit "  ") (lit "gamma") [old_row]).
  - reflexivity.
  - reflexivity.
  - discriminate.
  - reflexivity.
  - discriminate.
  - eexists; reflexivity.
  - eexists; reflexivity.
Defined.


(** C1 (the code misses it): the docstring of [process_pdf] promises a
    commit every [commit_interval] pages, but the test of the page number
    sits behind the [continue] of a blank page.  With interval 2 and text
    on pages 1, 3 and 5 only, three rows are appended, no commit happens
    inside the loop although floor(3/2) = 1, and all three rows are
    uncommitted at once, more than the interval. *)
Lemma process_pdf_blank_multiple_skips_commit :
  exists conn' w',
    process_pdf (H := demo_env doc_even_blank) report_pdf demo_conn 2
      demo_world
    = (Ok conn', w') /\
    length (kept 1 doc_even_blank) = 3%nat /\
    count_commits (new_events demo_world w') = 1%nat /\
    ~ (Z.to_nat (3 / 2) + 1 <= count_commits (new_events demo_world w'))%nat /\
    peak_uncommitted (new_events demo_world w') = 3%nat /\
    ~ (peak_uncommitted (new_events demo_world w') <= 2)%nat.
Proof.
  do 2 eexists. split; [vm_compute; reflexivity|].
  split; [reflexivity|].
  split; [reflexivity|].
  split; [vm_compute; lia|].
  split; [reflexivity|].
  vm_compute. lia.
Defined.

(** A run over text, blank, text: no row of page 2. *)
Lemma process_pdf_skips_blank_pages_witness :
  exists r w' evs,
    process_pdf (H := demo_env doc_gap) report_pdf demo_conn 50 demo_world
    = (r, w') /\
    log w' = log demo_world ++ evs /\
    (forall (i : nat) raw, doc_gap !! i = Some raw -> strip raw = [] ->
       (forall row, row ∈ inserted evs -> page row <> 1 + Z.of_nat i) /\
       ((exists conn', r = Ok conn') ->
        Print (msg_skipping (1 + Z.of_nat i)) ∈ evs)) /\
    ([] ∉ encoded evs) /\
    (length (encoded evs) <= length (kept 1 doc_gap))%nat /\
    ((exists conn', r = Ok conn') -> encoded evs = text <$> inserted evs) /\
    Forall (fun row =>
              text row <> [] /\
              exists (i : nat) raw,
                doc_gap !! i = Some raw /\ page row = 1 + Z.of_nat i /\
                text row = strip raw) (inserted evs) /\
    exists rows,
      disk w' !! conn_path demo_conn = Some rows /\
      forall row, row ∈ rows ->
                  row ∈ [old_row] ++ pending demo_conn \/ row ∈ inserted evs.
Proof.
  apply (process_pdf_skips_blank_pages (H := demo_env doc_gap)
           report_pdf demo_conn 50 demo_world doc_gap [old_row]).
  - reflexivity.
  - reflexivity.
Defined.



(** A path that is not there: one line, status 1, disk and log otherwise
    as they were. *)
Lemma main_usage_error_witness :
  main (H := demo_env doc_full) [lit "embed.py"; lit "missing.pdf"] demo_world
  = (Raise (SystemExit 1),
     mkWorld (disk demo_world)
       (log demo_world ++ [Print (msg_missing (lit "missing.pdf"))])) /\
  exit_code
    (main (H := demo_env doc_full) [lit "embed.py"; lit "missing.pdf"]
       demo_world).1 = 1.
Proof.
  apply (main_usage_error (H := demo_env doc_full)
           [lit "embed.py"; lit "missing.pdf"] demo_world).
  right. exists (lit "missing.pdf"). split; reflexivity.
Defined.

(** A document of blank pages only: status 0. *)
Lemma main_exit_zero_witness :
  (main (H := demo_env doc_blank) [lit "embed.py"; report_pdf] demo_world).1
  = Ok tt /\
  exit_code
    (main (H := demo_env doc_blank) [lit "embed.py"; report_pdf]
       demo_world).1 = 0.
Proof.
  apply (main_exit_zero (H := demo_env doc_blank)
           (lit "embed.py") report_pdf [] demo_world doc_blank).
  - reflexivity.
  - reflexivity.
  - repeat (apply List.Forall_cons; [left; reflexivity|]).
    apply List.Forall_nil.
Defined.

(** C8, as stated, fails: on a file that exists and cannot be opened as a
    document the run connects to the store, raises, and never closes the
    connection. *)
Lemma main_close_counterexample :
  exists w',
    main (H := demo_env doc_full) [lit "embed.py"; broken_pdf] demo_world
    = (Raise FileDataError, w') /\
    existsb is_connect (new_events demo_world w') = true /\
    existsb is_close (new_events demo_world w') = false.
Proof.
  eexists. split; [vm_compute; reflexivity|].
  split; reflexivity.
Defined.


(** * Further properties of the script *)

Section Further.

Context `{Env}.

(** ** The page loop, continued *)

Lemma loop_post_weaken (fn : str) (np k n : Z) (rest : list str)
    (conn : Connection) (d : gmap str (list Row)) (l0 evs : list event)
    (Q Q' : Connection -> gmap str (list Row) -> list event -> Prop)
    (E E' : exn -> gmap str (list Row) -> list event -> Prop) :
  (forall c d' evs', Q c d' evs' -> Q' c d' evs') ->
  (forall e d' evs', E e d' evs' -> E' e d' evs') ->
  loop_post fn np k n rest conn d l0 evs Q E ->
  loop_post fn np k n rest conn d l0 evs Q' E'.
Proof.
  intros HQ HE (r & d' & evs' & Hrun & Hpost).
  exists r, d', evs'. split; [exact Hrun|].
  destruct r; auto.
Qed.

(** The loop touches the table of its connection only, never shortens it,
    never creates it, and raises nothing but the three exceptions of a
    turn. *)
Lemma loop_frame fn np k s all conn d l0 :
  loop_post fn np k s all conn d l0 []
    (fun c d' _ =>
       conn_path c = conn_path conn /\
       (forall q, q <> conn_path conn -> d' !! q = d !! q) /\
       (d !! conn_path conn = None -> d' !! conn_path conn = None) /\
       (forall rows0, d !! conn_path conn = Some rows0 ->
          exists rows, d' !! conn_path conn = Some rows /\
                       rows0 `prefix_of` rows))
    (fun e d' _ =>
       loop_exn e /\
       (forall q, q <> conn_path conn -> d' !! q = d !! q) /\
       (d !! conn_path conn = None -> d' !! conn_path conn = None) /\
       (forall rows0, d !! conn_path conn = Some rows0 ->
          exists rows, d' !! conn_path conn = Some rows /\
                       rows0 `prefix_of` rows)).
Proof.
  replace s with (s + Z.of_nat (length (@nil str))) at 1 by (simpl; lia).
  apply (for_pages_rule
           (fun _ c d' _ =>
              conn_path c = conn_path conn /\
              (forall q, q <> conn_path conn -> d' !! q = d !! q) /\
              (d !! conn_path conn = None -> d' !! conn_path conn = None) /\
              (forall rows0, d !! conn_path conn = Some rows0 ->
                 exists rows, d' !! conn_path conn = Some rows /\
                              rows0 `prefix_of` rows)))
    with (all := all).
  - intros done raw rest c0 d0 evs r d' bevs Hall (Hp & Hfr & Hno & Hmono) Hout.
    unfold loop_exn.
    inversion Hout; subst r d' bevs; simpl; rewrite ?Hp in *; auto 6.
    repeat split; auto.
    + intros q Hq. rewrite lookup_insert_ne by auto. auto.
    + intros Hd. rewrite Hno in * by exact Hd. discriminate.
    + intros rows0 Hd. destruct (Hmono _ Hd) as (rows1 & Hr1 & Hpre).
      assert (rows1 = rows) by congruence. subst rows1.
      eexists. rewrite lookup_insert_eq. split; [reflexivity|].
      apply prefix_app_r. exact Hpre.
  - reflexivity.
  - repeat split; auto. intros rows0 Hd. exists rows0. split; [exact Hd|].
    reflexivity.
Qed.

(** The table is what the commits made durable: what the connection saw
    at the start followed by the inserted rows, less the rows inserted since
    the last commit, whose number [scan] counts. *)
Lemma loop_durable fn np k s all conn d l0 rows0 :
  d !! conn_path conn = Some rows0 ->
  loop_post fn np k s all conn d l0 []
    (fun c d' evs =>
       exists rows,
         d' !! conn_path conn = Some rows /\
         rows ++ pending c = (rows0 ++ pending conn) ++ inserted evs /\
         length (pending c) = (scan (length (pending conn)) 0 evs).1)
    (fun _ d' evs =>
       exists rows lost,
         d' !! conn_path conn = Some rows /\
         rows ++ lost = (rows0 ++ pending conn) ++ inserted evs /\
         length lost = (scan (length (pending conn)) 0 evs).1).
Proof.
  intros Hd.
  eapply loop_post_weaken; cycle 2.
  replace s with (s + Z.of_nat (length (@nil str))) at 1 by (simpl; lia).
  apply (for_pages_rule
           (fun _ c d' evs =>
              conn_path c = conn_path conn /\
              exists rows,
                d' !! conn_path conn = Some rows /\
                rows ++ pending c = (rows0 ++ pending conn) ++ inserted evs /\
                length (pending c) = (scan (length (pending conn)) 0 evs).1)
           (fun _ d' evs =>
              exists rows lost,
                d' !! conn_path conn = Some rows /\
                rows ++ lost = (rows0 ++ pending conn) ++ inserted evs /\
                length lost = (scan (length (pending conn)) 0 evs).1))
    with (all := all).
  - intros done raw rest c0 d0 evs r d' bevs Hall
      (Hp & rows & Hrows & Hview & Hlen) Hout.
    inversion Hout; subst r d' bevs;
      rewrite ?inserted_app, ?scan_app; simpl; rewrite ?app_nil_r;
      rewrite ?Hp in *.
    + split; [reflexivity|]. exists rows. auto.
    + exists rows, (pending c0). auto.
    + congruence.
    + assert (rows1 = rows) by congruence. subst rows1.
      exists rows, (pending c0 ++ [r0]).
      split; [exact Hrows|]. split.
      * rewrite !app_assoc, Hview. reflexivity.
      * rewrite length_app, Hlen. simpl. lia.
    + assert (rows1 = rows) by congruence. subst rows1.
      split; [reflexivity|]. exists (rows ++ pending c0 ++ [r0]).
      rewrite lookup_insert_eq. split; [reflexivity|]. split; [|reflexivity].
      simpl. rewrite app_nil_r, !app_assoc, Hview. reflexivity.
    + assert (rows1 = rows) by congruence. subst rows1.
      split; [reflexivity|]. exists rows. split; [exact Hrows|]. split.
      * simpl. rewrite !app_assoc, Hview. reflexivity.
      * simpl. rewrite length_app, Hlen. simpl. lia.
  - reflexivity.
  - split; [reflexivity|]. exists rows0. simpl. rewrite app_nil_r. auto.
  - intros c d' evs' [_ HQ]. exact HQ.
  - intros e d' evs' HE. exact HE.
Qed.

(** For a non-zero interval the loop commits exactly after the kept pages
    whose number the interval divides. *)
Lemma loop_commit_count fn np k s all conn d l0 :
  k <> 0 ->
  loop_post fn np k s all conn d l0 []
    (fun _ _ evs =>
       count_commits evs
       = length (List.filter (fun pt : Z * str => pt.1 mod k =? 0)
                   (kept s all)))
    (fun _ _ _ => True).
Proof.
  intros Hk.
  replace s with (s + Z.of_nat (length (@nil str))) at 1 by (simpl; lia).
  apply (for_pages_rule
           (fun done _ _ evs =>
              count_commits evs
              = length (List.filter (fun pt : Z * str => pt.1 mod k =? 0)
                          (kept s done)))).
  - intros done raw rest c0 d0 evs r d' bevs Hall Hinv Hout.
    inversion Hout; subst r d' bevs; try exact I;
      rewrite count_commits_app, Hinv;
      rewrite ?kept_snoc_blank, ?kept_snoc_text by assumption;
      rewrite ?List.filter_app, ?length_app; unfold count_commits; simpl.
    + lia.
    + match goal with Hm : _ mod k = 0 |- _ => rewrite Hm end. reflexivity.
    + match goal with Hm : _ mod k <> 0 |- _ =>
        apply Z.eqb_neq in Hm; rewrite Hm end. reflexivity.
  - reflexivity.
  - reflexivity.
Qed.

(** Blank pages only: the loop returns with the connection and the disk as
    they were, having logged one skip notice per page and nothing else,
    for any interval. *)
Lemma for_pages_blank fn np k doc : forall n conn w,
  Forall (fun raw => strip raw = []) doc ->
  for_pages fn np k n doc conn w
  = (Ok conn, mkWorld (disk w) (log w ++ skip_notices n (length doc))).
Proof.
  induction doc as [|raw doc IH]; intros n conn w Hall.
  - simpl. unfold ret, skip_notices. simpl. rewrite app_nil_r.
    destruct w; reflexivity.
  - apply Forall_cons in Hall as [Hraw Hall].
    simpl. unfold bind at 1, page_body. rewrite Hraw. simpl.
    cbv [bind print emit ret]. rewrite IH by exact Hall. simpl.
    unfold skip_notices.
    replace (Z.of_nat (S (length doc)))
      with (Z.succ (Z.of_nat (length doc))) by lia.
    rewrite (seqZ_cons n) by lia. rewrite Z.pred_succ, fmap_cons.
    rewrite <- app_assoc. simpl.
    replace (Z.succ n) with (n + 1) by lia. reflexivity.
Qed.

(** The loop over a document in two parts is the loop over the first part
    followed by the loop over the second. *)
Lemma for_pages_app fn np k a b : forall n conn w,
  for_pages fn np k n (a ++ b) conn w
  = match for_pages fn np k n a conn w with
    | (Ok conn', w') =>
        for_pages fn np k (n + Z.of_nat (length a)) b conn' w'
    | (Raise e, w') => (Raise e, w')
    end.
Proof.
  induction a as [|raw a IH]; intros n conn w.
  - simpl. unfold ret. f_equal. lia.
  - simpl. unfold bind.
    destruct (page_body fn np k n raw conn w) as [[c|e] w1]; [|reflexivity].
    rewrite IH. replace (n + 1 + Z.of_nat (length a))
      with (n + Z.pos (Pos.of_succ_nat (length a))) by lia.
    reflexivity.
Qed.

Lemma bind_ext {A B} (m : M A) (k1 k2 : A -> M B) w :
  (forall a w', k1 a w' = k2 a w') -> bind m k1 w = bind m k2 w.
Proof.
  intros Hk. unfold bind. destruct (m w) as [[a|e] w']; auto.
Qed.

(** A negative interval: Python's [%] gives 0 for it exactly when it does
    for its opposite, so every turn goes the same way. *)
Lemma py_mod_opp_test {A} n k (yes no : M A) w :
  (r <- py_mod n (- k) ;; if r =? 0 then yes else no) w
  = (r <- py_mod n k ;; if r =? 0 then yes else no) w.
Proof.
  unfold bind, py_mod.
  destruct (Z.eqb_spec k 0) as [->|Hk]; [reflexivity|].
  destruct (Z.eqb_spec (- k) 0) as [Hk'|_]; [lia|].
  unfold ret.
  assert (Hsame : (n mod - k =? 0) = (n mod k =? 0)).
  { destruct (Z.eqb_spec (n mod k) 0) as [Hm|Hm].
    - apply Z.eqb_eq. apply Z.mod_divide; [lia|].
      apply Z.divide_opp_l. apply Z.mod_divide; [lia|exact Hm].
    - apply Z.eqb_neq. intros Hm'. apply Hm.
      apply Z.mod_divide; [lia|].
      apply Z.mod_divide in Hm'; [|lia].
      apply Z.divide_opp_l in Hm'. rewrite Z.opp_involutive in Hm'.
      exact Hm'. }
  rewrite Hsame. reflexivity.
Qed.

Lemma page_body_opp fn np k n raw conn w :
  page_body fn np (- k) n raw conn w = page_body fn np k n raw conn w.
Proof.
  unfold page_body.
  destruct (is_empty (strip raw)); [reflexivity|].
  apply bind_ext. intros _ w1. apply bind_ext. intros _ w2.
  destruct (encode (strip raw)) as [t|]; [|reflexivity].
  apply bind_ext. intros c w3. apply py_mod_opp_test.
Qed.

Lemma for_pages_opp fn np k doc : forall n conn w,
  for_pages fn np (- k) n doc conn w = for_pages fn np k n doc conn w.
Proof.
  induction doc as [|raw doc IH]; intros n conn w; [reflexivity|].
  simpl. unfold bind. rewrite page_body_opp.
  destruct (page_body fn np k n raw conn w) as [[c|e] w1]; auto.
Qed.

(** ** Trimming *)

Lemma lstrip_split s : exists a, s = a ++ lstrip s /\ all_space a.
Proof.
  induction s as [|c s (a & Hs & Ha)]; simpl.
  - exists []. split; [reflexivity|constructor].
  - destruct (isspace c) eqn:Hc.
    + exists (c :: a). split; [simpl; f_equal; exact Hs|].
      constructor; assumption.
    + exists []. split; [reflexivity|constructor].
Qed.

Lemma lstrip_head s :
  match lstrip s with [] => True | c :: _ => isspace c = false end.
Proof.
  induction s as [|c s IH]; simpl; [exact I|].
  destruct (isspace c) eqn:Hc; [exact IH|exact Hc].
Qed.

Lemma lstrip_all_space s : all_space s -> lstrip s = [].
Proof.
  induction 1 as [|c s Hc _ IH]; simpl; [reflexivity|].
  rewrite Hc. exact IH.
Qed.

(** [strip] takes whitespace off both ends and nothing else: the text is
    the trimmed text between two runs of whitespace, and the trimmed text
    is empty or begins and ends with a character that is no whitespace. *)
Lemma strip_spec s :
  exists a b,
    s = a ++ strip s ++ b /\ all_space a /\ all_space b /\
    trimmed (strip s).
Proof.
  unfold strip, rstrip.
  destruct (lstrip_split s) as (a & Hs & Ha).
  destruct (lstrip_split (reverse (lstrip s))) as (a' & Hr & Ha').
  set (u := lstrip s) in *. set (v := lstrip (reverse u)) in *.
  assert (Hu : u = reverse v ++ reverse a').
  { rewrite <- reverse_app, <- Hr, reverse_involutive. reflexivity. }
  exists a, (reverse a'). split; [rewrite <- Hu; exact Hs|].
  split; [exact Ha|]. split; [apply Forall_reverse; exact Ha'|].
  unfold trimmed. destruct (reverse v) as [|c t] eqn:Hv; [exact I|].
  split.
  - pose proof (lstrip_head s) as Hh. fold u in Hh. rewrite Hu in Hh.
    exact Hh.
  - pose proof (lstrip_head (reverse u)) as Hh. fold v in Hh.
    destruct v as [|x v']; [discriminate|].
    rewrite reverse_cons in Hv. rewrite <- Hv.
    rewrite List.last_last. exact Hh.
Qed.

(** A text trims to nothing exactly when it is whitespace throughout. *)
Lemma strip_nil_iff s : strip s = [] <-> all_space s.
Proof.
  split.
  - intros Hs. destruct (strip_spec s) as (a & b & Heq & Ha & Hb & _).
    rewrite Hs in Heq. rewrite Heq. apply Forall_app. auto.
  - intros Hs. unfold strip, rstrip.
    rewrite (lstrip_all_space s Hs). reflexivity.
Qed.

(** Trimming a trimmed text changes nothing. *)
Lemma strip_trimmed s : trimmed s -> strip s = s.
Proof.
  destruct s as [|c t]; [reflexivity|]. intros [Hc Hl].
  unfold strip, rstrip. simpl lstrip. rewrite Hc.
  destruct (exists_last (l := c :: t) ltac:(discriminate)) as (l & y & Hly).
  rewrite Hly in *. rewrite List.last_last in Hl.
  rewrite reverse_snoc. simpl. rewrite Hl.
  rewrite <- reverse_snoc. apply reverse_involutive.
Qed.

Lemma strip_idempotent s : strip (strip s) = strip s.
Proof.
  destruct (strip_spec s) as (_ & _ & _ & _ & _ & Ht).
  apply strip_trimmed. exact Ht.
Qed.

(** ** The kept pages, continued *)

Lemma kept_elem doc : forall n (i : nat) raw,
  doc !! i = Some raw -> strip raw <> [] ->
  (n + Z.of_nat i, strip raw) ∈ kept n doc.
Proof.
  induction doc as [|raw0 doc IH]; intros n i raw Hi Hne; [inversion Hi|].
  destruct i as [|i]; simpl in Hi.
  - injection Hi as ->. simpl.
    destruct (strip raw) eqn:Hs; [contradiction|]. simpl.
    replace (n + Z.of_nat 0) with n by lia. left.
  - simpl. specialize (IH (n + 1) i raw Hi Hne).
    replace (n + 1 + Z.of_nat i) with (n + Z.pos (Pos.of_succ_nat i)) in IH
      by lia.
    destruct (is_empty (strip raw0)); [exact IH|right; exact IH].
Qed.

(** ** Paths, continued *)

Lemma split_sep_nonempty s : split_sep s <> [].
Proof.
  destruct s as [|c s]; simpl; [discriminate|].
  destruct (c =? sep)%N; [discriminate|].
  destruct (split_sep s); discriminate.
Qed.

Lemma split_sep_join a b :
  split_sep (a ++ sep :: b) = split_sep a ++ split_sep b.
Proof.
  induction a as [|c a IH]; simpl.
  - reflexivity.
  - destruct (c =? sep)%N; [rewrite IH; reflexivity|].
    rewrite IH. pose proof (split_sep_nonempty a).
    destruct (split_sep a); [contradiction|reflexivity].
Qed.

Lemma split_sep_plain n : sep ∉ n -> split_sep n = [n].
Proof.
  induction n as [|c n IH]; intros Hn; [reflexivity|]. simpl.
  destruct (N.eqb_spec c sep) as [->|_]; [exfalso; apply Hn; left|].
  rewrite IH; [reflexivity|]. intros Hin. apply Hn. right. exact Hin.
Qed.

Lemma keeps_part_true n : n <> [] -> n <> dot -> keeps_part n = true.
Proof.
  intros Hne Hd. unfold keeps_part.
  destruct n; [contradiction|]. simpl.
  rewrite bool_decide_eq_false_2 by exact Hd. reflexivity.
Qed.

(** ** Row ids, continued *)

Lemma top_id_snoc view r :
  top_id (view ++ [r])
  = match max_id view with None => id r | Some m => Z.max m (id r) end.
Proof. unfold top_id. rewrite max_id_snoc. reflexivity. Qed.

(** While there is room the ids are handed out consecutively, from one
    above the largest in use. *)
Lemma ids_chain_consecutive rs : forall view,
  rowid_room view (Z.of_nat (length rs)) ->
  ids_chain view rs ->
  id <$> rs = seqZ (top_id view + 1) (Z.of_nat (length rs)).
Proof.
  induction rs as [|r rs IH]; intros view Hroom Hch; [reflexivity|].
  destruct Hch as [Hid Hch].
  assert (Hr : id r = top_id view + 1).
  { rewrite Hid. unfold next_rowid, top_id, rowid_room in *.
    simpl length in Hroom.
    destruct (max_id view) as [m|]; [|reflexivity].
    destruct (Z.ltb_spec m MAX_ROWID); [reflexivity|lia]. }
  assert (Htop : top_id (view ++ [r]) = id r).
  { rewrite top_id_snoc. unfold top_id in Hr.
    destruct (max_id view); lia. }
  simpl length.
  replace (Z.of_nat (S (length rs))) with (Z.succ (Z.of_nat (length rs)))
    by lia.
  rewrite (seqZ_cons (top_id view + 1)) by lia.
  rewrite Z.pred_succ, fmap_cons, Hr. f_equal.
  rewrite (IH (view ++ [r])); [|unfold rowid_room in *|exact Hch].
  - rewrite Htop, Hr. f_equal; lia.
  - fold (top_id (view ++ [r])). fold (top_id view) in Hroom.
    rewrite Htop, Hr. simpl length in Hroom. lia.
Qed.

Lemma sorted_lt_NoDup (l : list Z) : StronglySorted Z.lt l -> NoDup l.
Proof.
  induction 1 as [|x l _ IH Hx]; constructor; [|exact IH].
  intros Hin. rewrite Forall_forall in Hx. specialize (Hx _ Hin). lia.
Qed.

(** ** A pass as a whole, continued *)

(** One run, described twice, is one run. *)
Lemma same_run {A} (m : M A) w r1 w1 evs1 r2 w2 evs2 :
  m w = (r1, w1) -> log w1 = log w ++ evs1 ->
  m w = (r2, w2) -> log w2 = log w ++ evs2 ->
  r2 = r1 /\ w2 = w1 /\ evs2 = evs1.
Proof.
  intros H1 Hl1 H2 Hl2. rewrite H1 in H2. injection H2 as <- <-.
  rewrite Hl1 in Hl2. apply app_inv_head in Hl2. auto.
Qed.

Lemma flushed_nothing c d : pending c = [] -> flushed c d = d.
Proof.
  intros Hp. unfold flushed. rewrite Hp.
  destruct (d !! conn_path c) as [rows|] eqn:Hd; [|reflexivity].
  rewrite app_nil_r. apply insert_id. exact Hd.
Qed.

(** What a pass over a readable document establishes with or without the
    table: its rows, the tables it leaves alone, and how it can end. *)
Lemma process_pdf_facts pdf_path conn k w doc :
  fitz_open pdf_path = Some doc ->
  exists r w' evs,
    process_pdf pdf_path conn k w = (r, w') /\
    log w' = log w ++ evs /\
    page_text <$> inserted evs `prefix_of` kept 1 doc /\
    Forall (fun row => exists t, encode (text row) = Some t /\
                                 embedding row = json_dumps t)
      (inserted evs) /\
    (forall q, q <> conn_path conn -> disk w' !! q = disk w !! q) /\
    (disk w !! conn_path conn = None -> disk w' !! conn_path conn = None) /\
    (forall rows0, disk w !! conn_path conn = Some rows0 ->
       exists rows, disk w' !! conn_path conn = Some rows /\
                    rows0 `prefix_of` rows) /\
    match r with
    | Ok conn' =>
        page_text <$> inserted evs = kept 1 doc /\
        conn' = mkConn (conn_path conn) []
    | Raise e => loop_exn e
    end.
Proof.
  intros Ho.
  destruct (process_pdf_run pdf_path conn k w doc _ _ Ho
              (loop_post_and _ _ _ _ _ _ _ _ _ _ _ _ _
                 (loop_rows _ _ _ _ _ _ _ _)
                 (loop_post_and _ _ _ _ _ _ _ _ _ _ _ _ _
                    (loop_embeddings _ _ _ _ _ _ _ _)
                    (loop_frame _ _ _ _ _ _ _ _))))
    as (r & w' & evs & Hrun & Hlog & Hpost).
  exists r, w'. eexists. split; [exact Hrun|]. split; [exact Hlog|].
  assert (Hins : forall tl, inserted tl = [] ->
            inserted ([OpenDoc pdf_path;
                       Print (msg_start (path_name pdf_path)
                                (Z.of_nat (length doc)))] ++ evs ++ tl)
            = inserted evs).
  { intros tl Htl. simpl. rewrite inserted_app, Htl. apply app_nil_r. }
  rewrite Hins by (destruct r; reflexivity).
  destruct r as [conn'|e].
  - destruct Hpost as (c & d & [(Hpt & _) [Hemb (Hp & Hfr & Hno & Hmono)]]
                         & -> & Hdisk).
    rewrite Hdisk, Hpt, Hp.
    repeat split; try reflexivity; try assumption.
    + intros q Hq. rewrite flushed_lookup_ne by (rewrite Hp; exact Hq). auto.
    + intros Hd. unfold flushed. rewrite Hp, (Hno Hd). auto.
    + intros rows0 Hd. destruct (Hmono _ Hd) as (rows & Hr & Hpre).
      exists (rows ++ pending c). rewrite <- Hp.
      rewrite (flushed_lookup c d rows) by (rewrite Hp; exact Hr).
      split; [reflexivity|]. apply prefix_app_r. exact Hpre.
  - destruct Hpost as [(Hpt & _) [Hemb (Hex & Hfr & Hno & Hmono)]].
    repeat split; assumption.
Qed.

(** X6: what a pass leaves in the table, however it ends: on return, the
    rows the connection saw before and all the rows inserted; on a raise,
    these less the rows inserted since the last commit, which are lost. *)
Theorem process_pdf_durable pdf_path conn k w doc rows0 :
  fitz_open pdf_path = Some doc ->
  disk w !! conn_path conn = Some rows0 ->
  exists r w' evs rows lost,
    process_pdf pdf_path conn k w = (r, w') /\
    log w' = log w ++ evs /\
    disk w' !! conn_path conn = Some rows /\
    rows ++ lost = (rows0 ++ pending conn) ++ inserted evs /\
    length lost = match r with
                  | Ok _ => 0%nat
                  | Raise _ => (scan (length (pending conn)) 0 evs).1
                  end.
Proof.
  intros Ho Hd.
  destruct (process_pdf_run pdf_path conn k w doc _ _ Ho
              (loop_post_and _ _ _ _ _ _ _ _ _ _ _ _ _
                 (loop_frame _ _ _ _ _ _ _ _)
                 (loop_durable _ _ _ _ _ _ _ _ _ Hd)))
    as (r & w' & evs & Hrun & Hlog & Hpost).
  assert (Hins : forall tl, inserted tl = [] ->
            inserted ([OpenDoc pdf_path;
                       Print (msg_start (path_name pdf_path)
                                (Z.of_nat (length doc)))] ++ evs ++ tl)
            = inserted evs).
  { intros tl Htl. simpl. rewrite inserted_app, Htl. apply app_nil_r. }
  destruct r as [conn'|e]; eexists; exists w'; eexists.
  - destruct Hpost as (c & d & [(Hp & _) (rows & Hr & Hv & _)] & -> & Hdisk).
    exists (rows ++ pending c), [].
    split; [exact Hrun|]. split; [exact Hlog|].
    rewrite Hins by reflexivity. rewrite Hdisk, <- Hp.
    rewrite (flushed_lookup c d rows) by (rewrite Hp; exact Hr).
    rewrite app_nil_r. auto.
  - destruct Hpost as [_ (rows & lost & Hr & Hv & Hlen)].
    exists rows, lost.
    split; [exact Hrun|]. split; [exact Hlog|].
    rewrite Hins by reflexivity.
    split; [exact Hr|]. split; [exact Hv|].
    rewrite Hlen, app_nil_r. simpl. reflexivity.
Qed.

(** ** Further properties of [process_pdf] *)

(** A pass the model lets through, with all it logged. *)
Lemma process_pdf_passes pdf_path conn k w doc rows0 :
  fitz_open pdf_path = Some doc ->
  disk w !! conn_path conn = Some rows0 ->
  k <> 0 ->
  Forall (fun raw => strip raw = [] \/ is_Some (encode (strip raw))) doc ->
  exists w' evs,
    process_pdf pdf_path conn k w = (Ok (mkConn (conn_path conn) []), w') /\
    log w' = log w ++ evs /\
    disk w' !! conn_path conn
    = Some ((rows0 ++ pending conn) ++ inserted evs) /\
    page_text <$> inserted evs = kept 1 doc /\
    Forall (fun row =>
              filename row = path_name pdf_path /\
              exists t, encode (text row) = Some t /\
                        embedding row = json_dumps t) (inserted evs) /\
    (forall q, q <> conn_path conn -> disk w' !! q = disk w !! q).
Proof.
  intros Ho Hd Hk Hdoc.
  destruct (process_pdf_summary pdf_path conn k w doc rows0 Ho Hd)
    as (r & w' & evs & Hrun & Hlog & _ & _ & Hfn & _ & _ & _ & Hpost).
  destruct (process_pdf_facts pdf_path conn k w doc Ho)
    as (r2 & w2 & evs2 & Hrun2 & Hlog2 & _ & Hemb & Hfr & _ & _ & Hpost2).
  destruct (same_run _ _ _ _ _ _ _ _ Hrun Hlog Hrun2 Hlog2) as (-> & -> & ->).
  destruct r as [c|e].
  - destruct Hpost as (Hpt & _ & Hdisk & _). destruct Hpost2 as [_ ->].
    exists w', evs. split; [exact Hrun|]. split; [exact Hlog|].
    split; [exact Hdisk|]. split; [exact Hpt|]. split; [|exact Hfr].
    apply Forall_forall. intros row Hrow.
    rewrite Forall_forall in Hfn, Hemb. split; auto.
  - exfalso. destruct Hpost as [Hz|Hfail]; [contradiction|].
    eapply embeddable_no_failure; eauto.
Qed.

(** X1: whatever pages are blank, a pass with a non-zero interval over a
    document the model can embed returns with nothing pending, and the
    table then holds what the connection saw before followed by one row per
    kept page, in page order, each with the base name of the path, the
    trimmed text of its page and the JSON text of its embedding; no other
    table has changed. *)
Theorem process_pdf_returns_table pdf_path conn k w doc rows0 :
  fitz_open pdf_path = Some doc ->
  disk w !! conn_path conn = Some rows0 ->
  k <> 0 ->
  Forall (fun raw => strip raw = [] \/ is_Some (encode (strip raw))) doc ->
  exists w' new,
    process_pdf pdf_path conn k w = (Ok (mkConn (conn_path conn) []), w') /\
    disk w' !! conn_path conn = Some ((rows0 ++ pending conn) ++ new) /\
    page_text <$> new = kept 1 doc /\
    Forall (fun row =>
              filename row = path_name pdf_path /\
              exists t, encode (text row) = Some t /\
                        embedding row = json_dumps t) new /\
    (forall q, q <> conn_path conn -> disk w' !! q = disk w !! q).
Proof.
  intros Ho Hd Hk Hdoc.
  destruct (process_pdf_passes pdf_path conn k w doc rows0 Ho Hd Hk Hdoc)
    as (w' & evs & Hrun & _ & Hdisk & Hpt & Hrows & Hfr).
  exists w', (inserted evs). split; [exact Hrun|].
  split; [exact Hdisk|]. split; [exact Hpt|]. split; [exact Hrows|].
  exact Hfr.
Qed.

(** X2: the pass has the same result and the same effects for an interval
    and for its opposite. *)
Theorem process_pdf_negative_interval pdf_path conn k w :
  process_pdf pdf_path conn (- k) w = process_pdf pdf_path conn k w.
Proof.
  unfold process_pdf. apply bind_ext. intros _ w1.
  destruct (fitz_open pdf_path) as [doc|]; [|reflexivity].
  apply bind_ext. intros _ w2. unfold bind at 1 3.
  rewrite for_pages_opp. reflexivity.
Qed.

(** X3: a document of blank pages only (or of no page) is passed over for
    every interval, zero included, and with or without the table: the pass
    returns, logs the skip notice of each page between its opening and
    closing lines, calls the model never, and leaves the disk of a
    connection with nothing pending as it was. *)
Theorem process_pdf_blank_document pdf_path conn k w doc :
  fitz_open pdf_path = Some doc ->
  Forall (fun raw => strip raw = []) doc ->
  pending conn = [] ->
  process_pdf pdf_path conn k w
  = (Ok conn,
     mkWorld (disk w)
       (log w
        ++ [OpenDoc pdf_path;
            Print (msg_start (path_name pdf_path) (Z.of_nat (length doc)))]
        ++ skip_notices 1 (length doc)
        ++ [Commit; Print (msg_finished (path_name pdf_path))])).
Proof.
  intros Ho Hdoc Hp. unfold process_pdf. rewrite Ho.
  cbv [bind emit print]. cbn [disk log].
  rewrite for_pages_blank by exact Hdoc.
  cbv [commit ret]. cbn [disk log].
  rewrite flushed_nothing by exact Hp.
  destruct conn as [cp pend]. simpl in Hp. subst pend. simpl.
  rewrite <- !app_assoc. reflexivity.
Qed.

(** The first page with text, after blank pages only. *)
Lemma for_pages_first_text fn np k blanks raw rest conn w :
  Forall (fun b => strip b = []) blanks ->
  for_pages fn np k 1 (blanks ++ raw :: rest) conn w
  = match page_body fn np k (1 + Z.of_nat (length blanks)) raw conn
            (mkWorld (disk w) (log w ++ skip_notices 1 (length blanks))) with
    | (Ok conn', w') =>
        for_pages fn np k (1 + Z.of_nat (length blanks) + 1) rest conn' w'
    | (Raise e, w') => (Raise e, w')
    end.
Proof.
  intros Hb. rewrite for_pages_app, for_pages_blank by exact Hb.
  reflexivity.
Qed.

(** X4: with a zero interval the pass raises [ZeroDivisionError] at the
    first page that has text: the blank pages before it are skipped, its
    row is inserted, and nothing is committed, so the disk is as before. *)
Theorem process_pdf_zero_interval
    pdf_path conn w blanks raw rest rows0 t :
  fitz_open pdf_path = Some (blanks ++ raw :: rest) ->
  Forall (fun b => strip b = []) blanks ->
  strip raw <> [] ->
  encode (strip raw) = Some t ->
  disk w !! conn_path conn = Some rows0 ->
  process_pdf pdf_path conn 0 w
  = (Raise ZeroDivisionError,
     mkWorld (disk w)
       (log w
        ++ [OpenDoc pdf_path;
            Print (msg_start (path_name pdf_path)
                     (Z.of_nat (length (blanks ++ raw :: rest))))]
        ++ skip_notices 1 (length blanks)
        ++ [Print (msg_processing (1 + Z.of_nat (length blanks))
                     (Z.of_nat (length (blanks ++ raw :: rest))));
            Encode (strip raw);
            Insert (mkRow (next_rowid (rows0 ++ pending conn))
                      (path_name pdf_path) (1 + Z.of_nat (length blanks))
                      (strip raw) (json_dumps t))])).
Proof.
  intros Ho Hb Hraw He Hd. unfold process_pdf. rewrite Ho.
  cbv [bind emit print]. cbn [disk log].
  rewrite for_pages_first_text by exact Hb. cbn [disk log].
  unfold page_body. destruct (strip raw) as [|c s] eqn:Hs; [contradiction|].
  cbv [is_empty bind print emit insert_document py_mod ret raise].
  cbn [disk log conn_path pending]. rewrite He. cbn [disk log].
  rewrite Hd. cbn [disk log Z.eqb]. rewrite <- !app_assoc. reflexivity.
Qed.

(** X5: without the table the pass raises [OperationalError] at the first
    page that has text, after the model was called on it; no row is
    inserted and the disk is as before. *)
Theorem process_pdf_missing_table
    pdf_path conn k w blanks raw rest t :
  fitz_open pdf_path = Some (blanks ++ raw :: rest) ->
  Forall (fun b => strip b = []) blanks ->
  strip raw <> [] ->
  encode (strip raw) = Some t ->
  disk w !! conn_path conn = None ->
  process_pdf pdf_path conn k w
  = (Raise OperationalError,
     mkWorld (disk w)
       (log w
        ++ [OpenDoc pdf_path;
            Print (msg_start (path_name pdf_path)
                     (Z.of_nat (length (blanks ++ raw :: rest))))]
        ++ skip_notices 1 (length blanks)
        ++ [Print (msg_processing (1 + Z.of_nat (length blanks))
                     (Z.of_nat (length (blanks ++ raw :: rest))));
            Encode (strip raw)])).
Proof.
  intros Ho Hb Hraw He Hd. unfold process_pdf. rewrite Ho.
  cbv [bind emit print]. cbn [disk log].
  rewrite for_pages_first_text by exact Hb. cbn [disk log].
  unfold page_body. destruct (strip raw) as [|c s] eqn:Hs; [contradiction|].
  cbv [is_empty bind print emit insert_document py_mod ret raise].
  cbn [disk log conn_path pending]. rewrite He. cbn [disk log].
  rewrite Hd. rewrite <- !app_assoc. reflexivity.
Qed.

(** X7: the text stored for a page is its raw text without the whitespace
    at its two ends: it is not empty, begins and ends with a character that
    is no whitespace, and the raw text is this text between two runs of
    whitespace.  This holds for the rows of a pass that raises as well. *)
Theorem process_pdf_stores_trimmed_text pdf_path conn k w doc :
  fitz_open pdf_path = Some doc ->
  exists r w' evs,
    process_pdf pdf_path conn k w = (r, w') /\
    log w' = log w ++ evs /\
    Forall (fun row =>
              exists (i : nat) raw a b,
                doc !! i = Some raw /\ page row = 1 + Z.of_nat i /\
                raw = a ++ text row ++ b /\ all_space a /\ all_space b /\
                trimmed (text row) /\ text row <> [])
      (inserted evs).
Proof.
  intros Ho.
  destruct (process_pdf_facts pdf_path conn k w doc Ho)
    as (r & w' & evs & Hrun & Hlog & Hpt & _).
  exists r, w', evs. split; [exact Hrun|]. split; [exact Hlog|].
  eapply Forall_impl; [exact (rows_of_kept _ _ _ Hpt)|].
  intros row (Hne & i & raw & Hi & Hp & Ht). simpl.
  destruct (strip_spec raw) as (a & b & Hraw & Ha & Hb & Htr).
  exists i, raw, a, b. rewrite Ht in *. repeat split; assumption.
Qed.

(** X8: when the pass returns, a page has a row exactly when its raw text
    has a character that is no whitespace. *)
Theorem process_pdf_records_iff_text pdf_path conn k w doc :
  fitz_open pdf_path = Some doc ->
  exists r w' evs,
    process_pdf pdf_path conn k w = (r, w') /\
    log w' = log w ++ evs /\
    ((exists conn', r = Ok conn') ->
     forall (i : nat) raw, doc !! i = Some raw ->
       ((exists row, row ∈ inserted evs /\ page row = 1 + Z.of_nat i)
        <-> ~ all_space raw)).
Proof.
  intros Ho.
  destruct (process_pdf_facts pdf_path conn k w doc Ho)
    as (r & w' & evs & Hrun & Hlog & _ & _ & _ & _ & _ & Hpost).
  exists r, w', evs. split; [exact Hrun|]. split; [exact Hlog|].
  intros [conn' ->] i raw Hi. destruct Hpost as [Hpt _].
  rewrite <- strip_nil_iff. split.
  - intros (row & Hrow & Hp) Hs.
    assert (Hin : (page row, text row) ∈ kept 1 doc).
    { rewrite <- Hpt. apply (list_elem_of_fmap_2 page_text). exact Hrow. }
    destruct (kept_lookup _ _ _ _ Hin) as (i' & raw' & Hi' & Hp' & Ht & Hne).
    assert (i' = i) by lia. subst i'.
    rewrite Hi in Hi'. injection Hi' as <-. congruence.
  - intros Hs. pose proof (kept_elem doc 1 i raw Hi Hs) as Hin.
    rewrite <- Hpt in Hin.
    apply list_elem_of_fmap in Hin as (row & Heq & Hrow).
    exists row. split; [exact Hrow|].
    unfold page_text in Heq. injection Heq as Hp _. symmetry. exact Hp.
Qed.

(** X9: for a non-zero interval k, a pass that the model lets through
    commits in its loop exactly once per kept page whose number k divides,
    and once more at its end. *)
Theorem process_pdf_commit_positions pdf_path conn k w doc rows0 :
  fitz_open pdf_path = Some doc ->
  disk w !! conn_path conn = Some rows0 ->
  k <> 0 ->
  Forall (fun raw => strip raw = [] \/ is_Some (encode (strip raw))) doc ->
  exists conn' w' pre,
    process_pdf pdf_path conn k w = (Ok conn', w') /\
    log w' = log w ++ pre
             ++ [Commit; Print (msg_finished (path_name pdf_path))] /\
    count_commits pre
    = length (List.filter (fun pt : Z * str => pt.1 mod k =? 0)
                (kept 1 doc)).
Proof.
  intros Ho Hd Hk Hdoc.
  destruct (process_pdf_run pdf_path conn k w _ _ _ Ho
              (loop_post_and _ _ _ _ _ _ _ _ _ _ _ _ _
                 (loop_view _ _ _ _ _ _ _ _ _ Hd)
                 (loop_commit_count _ _ _ _ _ _ _ _ Hk)))
    as (r & w' & evs & Hrun & Hlog & Hpost).
  destruct r as [conn'|e].
  - destruct Hpost as (c & d & [_ Hc] & -> & _).
    exists (mkConn (conn_path c) []), w',
      ([OpenDoc pdf_path;
        Print (msg_start (path_name pdf_path) (Z.of_nat (length doc)))]
         ++ evs).
    split; [exact Hrun|].
    split; [rewrite Hlog, <- !app_assoc; reflexivity|].
    unfold count_commits in *. simpl. exact Hc.
  - destruct Hpost as [(_ & _ & [Hz|Hfail]) _]; [contradiction|].
    exfalso. eapply embeddable_no_failure; eauto.
Qed.

(** Rows of the same pages of the same file differ in their ids at most. *)
Lemma content_determined fn (a : list Row) : forall b,
  page_text <$> a = page_text <$> b ->
  Forall (fun row => filename row = fn /\
                     exists t, encode (text row) = Some t /\
                               embedding row = json_dumps t) a ->
  Forall (fun row => filename row = fn /\
                     exists t, encode (text row) = Some t /\
                               embedding row = json_dumps t) b ->
  row_content <$> a = row_content <$> b.
Proof.
  induction a as [|x a IH]; intros [|y b] Hpt Ha Hb; try discriminate;
    [reflexivity|].
  injection Hpt as Hp Ht Hrest.
  apply Forall_cons in Ha as [(Hfx & tx & Hex & Hjx) Ha].
  apply Forall_cons in Hb as [(Hfy & ty & Hey & Hjy) Hb].
  rewrite !fmap_cons. f_equal; [|auto].
  unfold row_content. rewrite Hfx, Hfy, Hp, Ht, Hjx, Hjy.
  rewrite Ht in Hex. assert (tx = ty) by congruence. subst. reflexivity.
Qed.

(** X10: nothing keeps a document from being ingested twice.  Two passes
    in a row over the same document both return, and the table ends with
    the rows of the first pass followed by rows that repeat them in
    everything but the id. *)
Theorem process_pdf_twice pdf_path conn k w doc rows0 :
  fitz_open pdf_path = Some doc ->
  disk w !! conn_path conn = Some rows0 ->
  k <> 0 ->
  Forall (fun raw => strip raw = [] \/ is_Some (encode (strip raw))) doc ->
  exists c1 w1 c2 w2 new1 new2,
    process_pdf pdf_path conn k w = (Ok c1, w1) /\
    process_pdf pdf_path c1 k w1 = (Ok c2, w2) /\
    disk w2 !! conn_path conn
    = Some (((rows0 ++ pending conn) ++ new1) ++ new2) /\
    row_content <$> new2 = row_content <$> new1 /\
    length new1 = length (kept 1 doc).
Proof.
  intros Ho Hd Hk Hdoc.
  destruct (process_pdf_passes pdf_path conn k w doc rows0
              Ho Hd Hk Hdoc)
    as (w1 & evs1 & Hrun1 & _ & Hd1 & Hpt1 & Hc1 & _).
  destruct (process_pdf_passes pdf_path (mkConn (conn_path conn) [])
              k w1 doc _ Ho Hd1 Hk Hdoc)
    as (w2 & evs2 & Hrun2 & _ & Hd2 & Hpt2 & Hc2 & _).
  simpl in Hrun2, Hd2. rewrite app_nil_r in Hd2.
  exists (mkConn (conn_path conn) []), w1, (mkConn (conn_path conn) []), w2,
    (inserted evs1), (inserted evs2).
  split; [exact Hrun1|]. split; [exact Hrun2|]. split; [exact Hd2|].
  split.
  - apply (content_determined (path_name pdf_path)); [congruence| |];
      assumption.
  - rewrite <- Hpt1, length_fmap. reflexivity.
Qed.

(** X11: while the table has room below the largest rowid, the rows of a
    pass get consecutive ids, starting one above the largest id the
    connection saw (at 1 in an empty table). *)
Theorem process_pdf_ids_consecutive pdf_path conn k w doc rows0 :
  fitz_open pdf_path = Some doc ->
  disk w !! conn_path conn = Some rows0 ->
  rowid_room (rows0 ++ pending conn) (Z.of_nat (length doc)) ->
  exists r w' evs,
    process_pdf pdf_path conn k w = (r, w') /\
    log w' = log w ++ evs /\
    id <$> inserted evs
    = seqZ (top_id (rows0 ++ pending conn) + 1)
        (Z.of_nat (length (inserted evs))).
Proof.
  intros Ho Hd Hroom.
  destruct (process_pdf_summary pdf_path conn k w doc rows0 Ho Hd)
    as (r & w' & evs & Hrun & Hlog & Hpt & _ & _ & _ & Hch & _).
  exists r, w', evs. split; [exact Hrun|]. split; [exact Hlog|].
  apply ids_chain_consecutive; [|exact Hch].
  eapply rowid_room_le; [|exact Hroom].
  apply prefix_length in Hpt. rewrite length_fmap in Hpt.
  pose proof (kept_length 1 doc). lia.
Qed.

(** X12: the ids stay unique.  If no two rows the connection sees share an
    id and the table has room below the largest rowid, then no two rows of
    the table share an id after the pass, however it ends. *)
Theorem process_pdf_ids_unique pdf_path conn k w doc rows0 :
  fitz_open pdf_path = Some doc ->
  disk w !! conn_path conn = Some rows0 ->
  rowid_room (rows0 ++ pending conn) (Z.of_nat (length doc)) ->
  NoDup (id <$> (rows0 ++ pending conn)) ->
  exists r w' rows,
    process_pdf pdf_path conn k w = (r, w') /\
    disk w' !! conn_path conn = Some rows /\
    NoDup (id <$> rows).
Proof.
  intros Ho Hd Hroom Hnd.
  destruct (process_pdf_summary pdf_path conn k w doc rows0 Ho Hd)
    as (r & w' & evs & Hrun & Hlog & Hpt & _ & _ & _ & Hch
        & (rows & Hrows & [tl Hpre]) & _).
  exists r, w', rows. split; [exact Hrun|]. split; [exact Hrows|].
  destruct (ids_chain_increasing (inserted evs) (rows0 ++ pending conn))
    as [Hsorted Hold]; [|exact Hch|].
  { eapply rowid_room_le; [|exact Hroom].
    apply prefix_length in Hpt. rewrite length_fmap in Hpt.
    pose proof (kept_length 1 doc). lia. }
  assert (Hall : NoDup (id <$> ((rows0 ++ pending conn) ++ inserted evs))).
  { rewrite fmap_app. apply NoDup_app. split; [exact Hnd|].
    split; [|apply sorted_lt_NoDup; exact Hsorted].
    intros x Hx Hx'.
    apply list_elem_of_fmap in Hx as (old & -> & Hin).
    apply list_elem_of_fmap in Hx' as (row & Heq & Hin').
    specialize (Hold _ _ Hin Hin'). lia. }
  rewrite Hpre, fmap_app in Hall. apply NoDup_app in Hall as [Hall _].
  exact Hall.
Qed.

(** X20: a failing inference ends the pass where it happens.  If the
    model embeds the pages before page p and fails on the text of page p,
    the pass raises [InferenceError]; the model was called on the kept
    pages up to p and on no later page, and the rows inserted are those of
    the kept pages before p. *)
Theorem process_pdf_inference_failure
    pdf_path conn k w pre raw rest rows0 :
  fitz_open pdf_path = Some (pre ++ raw :: rest) ->
  disk w !! conn_path conn = Some rows0 ->
  k <> 0 ->
  Forall (fun b => strip b = [] \/ is_Some (encode (strip b))) pre ->
  strip raw <> [] ->
  encode (strip raw) = None ->
  exists w' evs,
    process_pdf pdf_path conn k w = (Raise InferenceError, w') /\
    log w' = log w ++ evs /\
    encoded evs = (kept 1 pre).*2 ++ [strip raw] /\
    page_text <$> inserted evs = kept 1 pre.
Proof.
  intros Ho Hd Hk Hpre Hraw He.
  set (doc := pre ++ raw :: rest) in *.
  set (head := [OpenDoc pdf_path;
                Print (msg_start (path_name pdf_path)
                         (Z.of_nat (length doc)))]).
  destruct (loop_post_and _ _ _ _ _ _ _ _ _ _ _ _ _
              (loop_rows (path_name pdf_path) (Z.of_nat (length doc)) k 1
                 pre conn (disk w) (log w ++ head))
              (loop_view (path_name pdf_path) (Z.of_nat (length doc)) k 1
                 pre conn (disk w) (log w ++ head) rows0 Hd))
    as (r & d' & evs & Hrun & Hpost).
  rewrite app_nil_r in Hrun.
  destruct r as [c|e].
  2:{ exfalso. destruct Hpost as [_ (_ & _ & [Hz|Hfail])]; [contradiction|].
      eapply embeddable_no_failure; eauto. }
  destruct Hpost as [(Hpt & Henc & _) _].
  destruct (page_body_outcome (path_name pdf_path) (Z.of_nat (length doc)) k
              (1 + Z.of_nat (length pre)) raw c
              (mkWorld d' ((log w ++ head) ++ evs)))
    as (r & d2 & bevs & Hbody & Hout).
  cbn [disk log] in Hbody, Hout.
  inversion Hout; subst; try contradiction; try congruence.
  exists (mkWorld d2
            (((log w ++ head) ++ evs)
             ++ [Print (msg_processing (1 + Z.of_nat (length pre))
                          (Z.of_nat (length doc)));
                 Encode (strip raw)])),
    (head ++ evs
     ++ [Print (msg_processing (1 + Z.of_nat (length pre))
                  (Z.of_nat (length doc)));
         Encode (strip raw)]).
  split; [|split; [|split]].
  - unfold process_pdf. rewrite Ho. cbv [bind emit print]. cbn [disk log].
    fold doc. rewrite <- app_assoc. cbn [app]. fold head.
    unfold doc at 2. rewrite for_pages_app, Hrun.
    cbn [for_pages]. unfold bind at 1. rewrite Hbody. reflexivity.
  - cbn [log]. rewrite <- !app_assoc. reflexivity.
  - unfold head. simpl. rewrite encoded_app, Henc. reflexivity.
  - unfold head. simpl. rewrite inserted_app. simpl. rewrite app_nil_r.
    exact Hpt.
Qed.

(** ** Further properties of [main] *)

(** How a run of [main] goes: it ends at one of the two checks with the
    disk untouched, or it is the pass over the named file on the disk with
    the table ensured. *)
Lemma main_cases argv w :
  main argv w
  = (Raise (SystemExit 1),
     mkWorld (disk w)
       (log w ++ [Print (match argv !! 1%nat with
                         | None => msg_usage
                         | Some p => msg_missing p
                         end)])) \/
  exists prog p rest,
    argv = prog :: p :: rest /\ path_exists p = true /\
    main argv w
    = match process_pdf p (mkConn db_file []) 50
              (mkWorld (with_table db_file (disk w))
                 (log w ++ [Print msg_loading; Print msg_loaded;
                            Connect db_file; Commit])) with
      | (Ok _, w2) =>
          (Ok tt,
           mkWorld (disk w2) (log w2 ++ [Close; Print (msg_saved db_file)]))
      | (Raise e, w2) => (Raise e, w2)
      end.
Proof.
  destruct argv as [|prog [|p rest]]; [left; reflexivity..|].
  destruct (path_exists p) eqn:Hex.
  - right. exists prog, p, rest. split; [reflexivity|]. split; [exact Hex|].
    apply main_run. exact Hex.
  - left. unfold main. rewrite Hex. reflexivity.
Qed.

(** The pass of [main], whatever the file is. *)
Lemma main_pass p w1 :
  disk w1 !! db_file <> None ->
  exists r2 w2,
    process_pdf p (mkConn db_file []) 50 w1 = (r2, w2) /\
    (forall q, q <> db_file -> disk w2 !! q = disk w1 !! q) /\
    (forall rows0, disk w1 !! db_file = Some rows0 ->
       exists rows, disk w2 !! db_file = Some rows /\
                    rows0 `prefix_of` rows) /\
    match r2 with
    | Ok _ => True
    | Raise e => loop_exn e \/ e = FileDataError
    end.
Proof.
  intros Ht. destruct (fitz_open p) as [doc|] eqn:Ho.
  - destruct (process_pdf_facts p (mkConn db_file []) 50 w1 doc Ho)
      as (r & w2 & evs & Hrun & _ & _ & _ & Hfr & _ & Hmono & Hpost).
    exists r, w2. split; [exact Hrun|]. split; [exact Hfr|].
    split; [exact Hmono|]. destruct r; auto.
  - rewrite process_pdf_unreadable by exact Ho.
    do 2 eexists. split; [reflexivity|]. simpl.
    split; [reflexivity|]. split; [|auto].
    intros rows0 Hd. exists rows0. split; [exact Hd|reflexivity].
Qed.

(** X13: no run of [main] takes anything away.  However it ends, every
    table of another file is as it was, and a [Documents] table that was in
    [pdf_embeddings.db] still begins with the rows it had, unchanged and in
    the same order. *)
Theorem main_store_grows argv w :
  exists r w',
    main argv w = (r, w') /\
    (forall q, q <> db_file -> disk w' !! q = disk w !! q) /\
    (forall rows0, disk w !! db_file = Some rows0 ->
       exists rows, disk w' !! db_file = Some rows /\
                    rows0 `prefix_of` rows).
Proof.
  destruct (main_cases argv w)
    as [Hm|(prog & p & rest & -> & Hex & Hm)]; rewrite Hm.
  - do 2 eexists. split; [reflexivity|]. simpl. split; [reflexivity|].
    intros rows0 Hd. exists rows0. split; [exact Hd|reflexivity].
  - set (w1 := mkWorld _ _).
    destruct (main_pass p w1) as (r2 & w2 & Hrun & Hfr & Hmono & _).
    { subst w1. simpl. rewrite with_table_lookup. discriminate. }
    rewrite Hrun.
    assert (Hfr1 : forall q, q <> db_file -> disk w1 !! q = disk w !! q).
    { intros q Hq. subst w1. simpl. unfold with_table.
      destruct (disk w !! db_file); [reflexivity|].
      apply lookup_insert_ne. auto. }
    assert (Hmono1 : forall rows0, disk w !! db_file = Some rows0 ->
                       disk w1 !! db_file = Some rows0).
    { intros rows0 Hd. subst w1. simpl. rewrite with_table_lookup, Hd.
      reflexivity. }
    destruct r2 as [c|e]; do 2 eexists; (split; [reflexivity|]); simpl;
      (split; [intros q Hq; rewrite Hfr by exact Hq; auto|]);
      intros rows0 Hd; apply Hmono; auto.
Qed.

(** X14: the exit status of [main] is 0 or 1, and it is 0 exactly when
    [main] returns: a usage error and an exception raised while the
    document is processed both end in status 1. *)
Theorem main_exit_status argv w :
  (exit_code (main argv w).1 = 0 \/ exit_code (main argv w).1 = 1) /\
  (exit_code (main argv w).1 = 0 <-> (main argv w).1 = Ok tt).
Proof.
  destruct (main_cases argv w)
    as [Hm|(prog & p & rest & -> & Hex & Hm)]; rewrite Hm.
  - simpl. split; [right; reflexivity|]. split; discriminate.
  - set (w1 := mkWorld _ _).
    destruct (main_pass p w1) as (r2 & w2 & Hrun & _ & _ & Hend).
    { subst w1. simpl. rewrite with_table_lookup. discriminate. }
    rewrite Hrun. destruct r2 as [c|e]; simpl.
    + split; [left; reflexivity|]. split; reflexivity.
    + unfold loop_exn in Hend.
      destruct Hend as [[He|[He|He]]|He]; subst e; simpl;
        (split; [right; reflexivity|]); split; discriminate.
Qed.

(** X15: a run of [main] on a file that exists, opens and can be embedded
    returns, and [pdf_embeddings.db] then holds the rows it had (none when
    there was no table) followed by one row per kept page, in page order,
    under the base name of the file; the last two things the run does are
    closing the connection and printing where the embeddings were saved. *)
Theorem main_ingests prog pdf_file rest w doc :
  path_exists pdf_file = true ->
  fitz_open pdf_file = Some doc ->
  Forall (fun raw => strip raw = [] \/ is_Some (encode (strip raw))) doc ->
  exists w' new pre,
    main (prog :: pdf_file :: rest) w = (Ok tt, w') /\
    disk w' !! db_file
    = Some (match disk w !! db_file with Some rows => rows | None => [] end
            ++ new) /\
    page_text <$> new = kept 1 doc /\
    Forall (fun row =>
              filename row = path_name pdf_file /\
              exists t, encode (text row) = Some t /\
                        embedding row = json_dumps t) new /\
    log w' = log w ++ pre ++ [Close; Print (msg_saved db_file)].
Proof.
  intros Hex Ho Hdoc. rewrite main_run by exact Hex.
  set (w1 := mkWorld _ _).
  destruct (process_pdf_passes pdf_file (mkConn db_file []) 50 w1 doc
              _ Ho (with_table_lookup _ _) ltac:(lia) Hdoc)
    as (w2 & evs & Hrun & Hlog & Hd & Hpt & Hc & _).
  rewrite Hrun. simpl in Hd. rewrite app_nil_r in Hd.
  exists (mkWorld (disk w2) (log w2 ++ [Close; Print (msg_saved db_file)])),
    (inserted evs),
    ([Print msg_loading; Print msg_loaded; Connect db_file; Commit]
       ++ evs).
  split; [reflexivity|]. simpl. split; [exact Hd|].
  split; [exact Hpt|]. split; [exact Hc|].
  rewrite Hlog. subst w1. simpl. rewrite <- !app_assoc. reflexivity.
Qed.

(** X16: the first run on a machine without a store leaves a table of
    exactly the new rows: one per kept page, in page order, with the ids 1,
    2, ... along that order. *)
Theorem main_fresh_store_ids prog pdf_file rest w doc :
  path_exists pdf_file = true ->
  fitz_open pdf_file = Some doc ->
  Forall (fun raw => strip raw = [] \/ is_Some (encode (strip raw))) doc ->
  disk w !! db_file = None ->
  Z.of_nat (length doc) <= MAX_ROWID ->
  exists w' new,
    main (prog :: pdf_file :: rest) w = (Ok tt, w') /\
    disk w' !! db_file = Some new /\
    id <$> new = seqZ 1 (Z.of_nat (length new)) /\
    page_text <$> new = kept 1 doc /\
    length new = length (kept 1 doc).
Proof.
  intros Hex Ho Hdoc Hnone Hlen. rewrite main_run by exact Hex.
  set (w1 := mkWorld _ _).
  assert (Hd1 : disk w1 !! conn_path (mkConn db_file []) = Some []).
  { subst w1. simpl. rewrite with_table_lookup, Hnone. reflexivity. }
  destruct (process_pdf_summary pdf_file (mkConn db_file []) 50 w1 doc
              _ Ho Hd1)
    as (r & w2 & evs & Hrun & _ & _ & _ & _ & _ & Hch & _ & Hpost).
  rewrite Hrun. destruct r as [c|e].
  - destruct Hpost as (Hpt & _ & Hdisk & _). simpl in Hdisk, Hch.
    assert (Hn : length (inserted evs) = length (kept 1 doc)).
    { rewrite <- Hpt, length_fmap. reflexivity. }
    do 2 eexists. split; [reflexivity|]. simpl.
    split; [exact Hdisk|]. split; [|split; [exact Hpt|exact Hn]].
    apply (ids_chain_consecutive (inserted evs) []); [|exact Hch].
    unfold rowid_room. simpl. pose proof (kept_length 1 doc). lia.
  - exfalso. destruct Hpost as [Hz|Hfail]; [discriminate|].
    eapply embeddable_no_failure; eauto.
Qed.

(** X17: on a file that exists and cannot be opened as a document the run
    ends in [FileDataError] with exit status 1, after the store was
    connected to and its table ensured: the table is there afterwards, with
    the rows it had or empty, and the connection is left open. *)
Theorem main_unreadable_document prog pdf_file rest w :
  path_exists pdf_file = true ->
  fitz_open pdf_file = None ->
  main (prog :: pdf_file :: rest) w
  = (Raise FileDataError,
     mkWorld (with_table db_file (disk w))
       (log w ++ [Print msg_loading; Print msg_loaded; Connect db_file;
                  Commit; OpenDoc pdf_file])) /\
  with_table db_file (disk w) !! db_file
  = Some (match disk w !! db_file with Some rows => rows | None => [] end) /\
  exit_code (main (prog :: pdf_file :: rest) w).1 = 1.
Proof.
  intros Hex Ho.
  assert (Hm : main (prog :: pdf_file :: rest) w
               = (Raise FileDataError,
                  mkWorld (with_table db_file (disk w))
                    (log w ++ [Print msg_loading; Print msg_loaded;
                               Connect db_file; Commit; OpenDoc pdf_file]))).
  { rewrite main_run by exact Hex.
    rewrite process_pdf_unreadable by exact Ho. simpl.
    rewrite <- app_assoc. reflexivity. }
  split; [exact Hm|]. split; [apply with_table_lookup|].
  rewrite Hm. reflexivity.
Qed.

(** ** Further properties of the stored file name *)

(** X18: the stored name of [dir/name] is [name], whatever [dir] is, and
    the stored name of a bare [name] is [name] itself, for a name that is
    not empty, has no separator and is not [.]. *)
Theorem path_name_join d n :
  n <> [] -> sep ∉ n -> n <> dot ->
  path_name (d ++ sep :: n) = n /\ path_name n = n.
Proof.
  intros Hne Hsep Hdot. unfold path_name, path_parts.
  rewrite split_sep_join, (split_sep_plain n Hsep), List.filter_app.
  simpl. rewrite (keeps_part_true n Hne Hdot).
  split; [apply List.last_last|reflexivity].
Qed.

(** X19: a separator at the end of the path, or a [/.] at its end, is
    ignored by the stored name. *)
Theorem path_name_trailing p :
  path_name (p ++ [sep]) = path_name p /\
  path_name (p ++ sep :: dot) = path_name p.
Proof.
  unfold path_name, path_parts. rewrite !split_sep_join, !List.filter_app.
  simpl. rewrite !app_nil_r. auto.
Qed.

End Further.


(** * The further properties at work on concrete runs *)

Lemma process_pdf_returns_table_witness :
  exists w' new,
    process_pdf (H := demo_env doc_even_blank) report_pdf demo_conn 2
      demo_world
    = (Ok (mkConn (conn_path demo_conn) []), w') /\
    disk w' !! conn_path demo_conn
    = Some (([old_row] ++ pending demo_conn) ++ new) /\
    page_text <$> new = kept 1 doc_even_blank /\
    Forall (fun row =>
              filename row = path_name report_pdf /\
              exists t, encode (Env := demo_env doc_even_blank) (text row)
                        = Some t /\
                        embedding row
                        = json_dumps (Env := demo_env doc_even_blank) t) new /\
    (forall q, q <> conn_path demo_conn ->
               disk w' !! q = disk demo_world !! q).
Proof.
  apply (process_pdf_returns_table (H := demo_env doc_even_blank)
           report_pdf demo_conn 2 demo_world doc_even_blank [old_row]).
  - reflexivity.
  - reflexivity.
  - lia.
  - repeat (apply List.Forall_cons;
            [first [left; reflexivity | right; eexists; reflexivity]|]).
    apply List.Forall_nil.
Defined.

Lemma process_pdf_blank_document_witness :
  process_pdf (H := demo_env doc_blank) report_pdf demo_conn 0 fresh_world
  = (Ok demo_conn,
     mkWorld (disk fresh_world)
       (log fresh_world
        ++ [OpenDoc report_pdf;
            Print (msg_start (path_name report_pdf)
                     (Z.of_nat (length doc_blank)))]
        ++ skip_notices 1 (length doc_blank)
        ++ [Commit; Print (msg_finished (path_name report_pdf))])).
Proof.
  apply (process_pdf_blank_document (H := demo_env doc_blank)
           report_pdf demo_conn 0 fresh_world doc_blank).
  - reflexivity.
  - repeat (apply List.Forall_cons; [reflexivity|]). apply List.Forall_nil.
  - reflexivity.
Defined.

Lemma process_pdf_zero_interval_witness :
  process_pdf (H := demo_env doc_odd_blank) report_pdf demo_conn 0 demo_world
  = (Raise ZeroDivisionError,
     mkWorld (disk demo_world)
       (log demo_world
        ++ [OpenDoc report_pdf;
            Print (msg_start (path_name report_pdf)
                     (Z.of_nat (length ([lit " "] ++ lit "beta"
                                          :: [lit "gamma"; lit "delta"]))))]
        ++ skip_notices 1 (length [lit " "])
        ++ [Print (msg_processing (1 + Z.of_nat (length [lit " "]))
                     (Z.of_nat (length ([lit " "] ++ lit "beta"
                                          :: [lit "gamma"; lit "delta"]))));
            Encode (strip (lit "beta"));
            Insert (mkRow
                      (next_rowid (H := demo_env doc_odd_blank)
                         ([old_row] ++ pending demo_conn))
                      (path_name report_pdf)
                      (1 + Z.of_nat (length [lit " "]))
                      (strip (lit "beta"))
                      (json_dumps (Env := demo_env doc_odd_blank)
                         (code_points (lit "beta"))))])).
Proof.
  apply (process_pdf_zero_interval (H := demo_env doc_odd_blank)
           report_pdf demo_conn demo_world
           [lit " "] (lit "beta") [lit "gamma"; lit "delta"] [old_row]
           (code_points (lit "beta"))).
  - reflexivity.
  - repeat (apply List.Forall_cons; [reflexivity|]). apply List.Forall_nil.
  - discriminate.
  - reflexivity.
  - reflexivity.
Defined.

Lemma process_pdf_missing_table_witness :
  process_pdf (H := demo_env doc_odd_blank) report_pdf demo_conn 50
    fresh_world
  = (Raise OperationalError,
     mkWorld (disk fresh_world)
       (log fresh_world
        ++ [OpenDoc report_pdf;
            Print (msg_start (path_name report_pdf)
                     (Z.of_nat (length ([lit " "] ++ lit "beta"
                                          :: [lit "gamma"; lit "delta"]))))]
        ++ skip_notices 1 (length [lit " "])
        ++ [Print (msg_processing (1 + Z.of_nat (length [lit " "]))
                     (Z.of_nat (length ([lit " "] ++ lit "beta"
                                          :: [lit "gamma"; lit "delta"]))));
            Encode (strip (lit "beta"))])).
Proof.
  apply (process_pdf_missing_table (H := demo_env doc_odd_blank)
           report_pdf demo_conn 50 fresh_world
           [lit " "] (lit "beta") [lit "gamma"; lit "delta"]
           (code_points (lit "beta"))).
  - reflexivity.
  - repeat (apply List.Forall_cons; [reflexivity|]). apply List.Forall_nil.
  - discriminate.
  - reflexivity.
  - reflexivity.
Defined.

Lemma process_pdf_durable_witness :
  exists r w' evs rows lost,
    process_pdf (H := demo_env doc_full) report_pdf demo_conn 0 demo_world
    = (r, w') /\
    log w' = log demo_world ++ evs /\
    disk w' !! conn_path demo_conn = Some rows /\
    rows ++ lost = ([old_row] ++ pending demo_conn) ++ inserted evs /\
    length lost = match r with
                  | Ok _ => 0%nat
                  | Raise _ => (scan (length (pending demo_conn)) 0 evs).1
                  end.
Proof.
  apply (process_pdf_durable (H := demo_env doc_full)
           report_pdf demo_conn 0 demo_world doc_full [old_row]).
  - reflexivity.
  - reflexivity.
Defined.

Lemma process_pdf_stores_trimmed_text_witness :
  exists r w' evs,
    process_pdf (H := demo_env doc_full) report_pdf demo_conn 50 demo_world
    = (r, w') /\
    log w' = log demo_world ++ evs /\
    Forall (fun row =>
              exists (i : nat) raw a b,
                doc_full !! i = Some raw /\ page row = 1 + Z.of_nat i /\
                raw = a ++ text row ++ b /\ all_space a /\ all_space b /\
                trimmed (text row) /\ text row <> [])
      (inserted evs).
Proof.
  apply (process_pdf_stores_trimmed_text (H := demo_env doc_full)
           report_pdf demo_conn 50 demo_world doc_full).
  reflexivity.
Defined.

Lemma process_pdf_records_iff_text_witness :
  exists r w' evs,
    process_pdf (H := demo_env doc_gap) report_pdf demo_conn 50 demo_world
    = (r, w') /\
    log w' = log demo_world ++ evs /\
    ((exists conn', r = Ok conn') ->
     forall (i : nat) raw, doc_gap !! i = Some raw ->
       ((exists row, row ∈ inserted evs /\ page row = 1 + Z.of_nat i)
        <-> ~ all_space raw)).
Proof.
  apply (process_pdf_records_iff_text (H := demo_env doc_gap)
           report_pdf demo_conn 50 demo_world doc_gap).
  reflexivity.
Defined.

Lemma process_pdf_commit_positions_witness :
  exists conn' w' pre,
    process_pdf (H := demo_env doc_even_blank) report_pdf demo_conn 2
      demo_world
    = (Ok conn', w') /\
    log w' = log demo_world ++ pre
             ++ [Commit; Print (msg_finished (path_name report_pdf))] /\
    count_commits pre
    = length (List.filter (fun pt : Z * str => pt.1 mod 2 =? 0)
                (kept 1 doc_even_blank)).
Proof.
  apply (process_pdf_commit_positions (H := demo_env doc_even_blank)
           report_pdf demo_conn 2 demo_world doc_even_blank [old_row]).
  - reflexivity.
  - reflexivity.
  - lia.
  - repeat (apply List.Forall_cons;
            [first [left; reflexivity | right; eexists; reflexivity]|]).
    apply List.Forall_nil.
Defined.

Lemma process_pdf_twice_witness :
  exists c1 w1 c2 w2 new1 new2,
    process_pdf (H := demo_env doc_gap) report_pdf demo_conn 50 demo_world
    = (Ok c1, w1) /\
    process_pdf (H := demo_env doc_gap) report_pdf c1 50 w1 = (Ok c2, w2) /\
    disk w2 !! conn_path demo_conn
    = Some ((([old_row] ++ pending demo_conn) ++ new1) ++ new2) /\
    row_content <$> new2 = row_content <$> new1 /\
    length new1 = length (kept 1 doc_gap).
Proof.
  apply (process_pdf_twice (H := demo_env doc_gap)
           report_pdf demo_conn 50 demo_world doc_gap [old_row]).
  - reflexivity.
  - reflexivity.
  - lia.
  - repeat (apply List.Forall_cons;
            [first [left; reflexivity | right; eexists; reflexivity]|]).
    apply List.Forall_nil.
Defined.

Lemma process_pdf_ids_consecutive_witness :
  exists r w' evs,
    process_pdf (H := demo_env doc_gap) report_pdf demo_conn 50 demo_world
    = (r, w') /\
    log w' = log demo_world ++ evs /\
    id <$> inserted evs
    = seqZ (top_id ([old_row] ++ pending demo_conn) + 1)
        (Z.of_nat (length (inserted evs))).
Proof.
  apply (process_pdf_ids_consecutive (H := demo_env doc_gap)
           report_pdf demo_conn 50 demo_world doc_gap [old_row]).
  - reflexivity.
  - reflexivity.
  - vm_compute. discriminate.
Defined.

Lemma process_pdf_ids_unique_witness :
  exists r w' rows,
    process_pdf (H := demo_env doc_gap) report_pdf demo_conn 50 demo_world
    = (r, w') /\
    disk w' !! conn_path demo_conn = Some rows /\
    NoDup (id <$> rows).
Proof.
  apply (process_pdf_ids_unique (H := demo_env doc_gap)
           report_pdf demo_conn 50 demo_world doc_gap [old_row]).
  - reflexivity.
  - reflexivity.
  - vm_compute. discriminate.
  - apply NoDup_singleton.
Defined.

Lemma main_ingests_witness :
  exists w' new pre,
    main (H := demo_env doc_gap) [lit "embed.py"; report_pdf] demo_world
    = (Ok tt, w') /\
    disk w' !! db_file
    = Some (match disk demo_world !! db_file with
            | Some rows => rows
            | None => []
            end ++ new) /\
    page_text <$> new = kept 1 doc_gap /\
    Forall (fun row =>
              filename row = path_name report_pdf /\
              exists t, encode (Env := demo_env doc_gap) (text row) = Some t /\
                        embedding row
                        = json_dumps (Env := demo_env doc_gap) t) new /\
    log w' = log demo_world ++ pre ++ [Close; Print (msg_saved db_file)].
Proof.
  apply (main_ingests (H := demo_env doc_gap)
           (lit "embed.py") report_pdf [] demo_world doc_gap).
  - reflexivity.
  - reflexivity.
  - repeat (apply List.Forall_cons;
            [first [left; reflexivity | right; eexists; reflexivity]|]).
    apply List.Forall_nil.
Defined.

Lemma main_fresh_store_ids_witness :
  exists w' new,
    main (H := demo_env doc_gap) [lit "embed.py"; report_pdf] fresh_world
    = (Ok tt, w') /\
    disk w' !! db_file = Some new /\
    id <$> new = seqZ 1 (Z.of_nat (length new)) /\
    page_text <$> new = kept 1 doc_gap /\
    length new = length (kept 1 doc_gap).
Proof.
  apply (main_fresh_store_ids (H := demo_env doc_gap)
           (lit "embed.py") report_pdf [] fresh_world doc_gap).
  - reflexivity.
  - reflexivity.
  - repeat (apply List.Forall_cons;
            [first [left; reflexivity | right; eexists; reflexivity]|]).
    apply List.Forall_nil.
  - reflexivity.
  - vm_compute. discriminate.
Defined.

Lemma main_unreadable_document_witness :
  main (H := demo_env doc_full) [lit "embed.py"; broken_pdf] fresh_world
  = (Raise FileDataError,
     mkWorld (with_table db_file (disk fresh_world))
       (log fresh_world
        ++ [Print msg_loading; Print msg_loaded; Connect db_file;
            Commit; OpenDoc broken_pdf])) /\
  with_table db_file (disk fresh_world) !! db_file
  = Some (match disk fresh_world !! db_file with
          | Some rows => rows
          | None => []
          end) /\
  exit_code
    (main (H := demo_env doc_full) [lit "embed.py"; broken_pdf]
       fresh_world).1 = 1.
Proof.
  apply (main_unreadable_document (H := demo_env doc_full)
           (lit "embed.py") broken_pdf [] fresh_world).
  - reflexivity.
  - reflexivity.
Defined.

Lemma path_name_join_witness :
  path_name (lit "/srv/docs" ++ sep :: lit "report.pdf") = lit "report.pdf" /\
  path_name (lit "report.pdf") = lit "report.pdf".
Proof.
  apply (path_name_join (lit "/srv/docs") (lit "report.pdf")).
  - discriminate.
  - intros Hin. vm_compute in Hin.
    repeat (apply elem_of_cons in Hin as [Hin|Hin]; [discriminate|]).
    inversion Hin.
  - discriminate.
Defined.

Lemma process_pdf_inference_failure_witness :
  exists w' evs,
    process_pdf
      (H := failing_env)
      report_pdf demo_conn 50 demo_world
    = (Raise InferenceError, w') /\
    log w' = log demo_world ++ evs /\
    encoded evs = (kept 1 [lit "alpha"]).*2 ++ [strip (lit " beta ")] /\
    page_text <$> inserted evs = kept 1 [lit "alpha"].
Proof.
  apply (process_pdf_inference_failure
           (H := failing_env)
           report_pdf demo_conn 50 demo_world
           [lit "alpha"] (lit " beta ") [lit "gamma"] [old_row]).
  - reflexivity.
  - reflexivity.
  - lia.
  - apply List.Forall_cons; [right; eexists; reflexivity|].
    apply List.Forall_nil.
  - discriminate.
  - reflexivity.
Defined.
